(** * The Wi-Fi reactor of the PiCar-X controller

    A shallow embedding of [wifi_server_reactor.py]: the command dispatcher
    [apply_cmd], the connection handlers [accept], [service],
    [push_telem_if_due] and [close_conn], and the loop of [main].

    Python values are modelled as follows.
    - [str] is the list of its Unicode code points ([text]); [bytes] is a
      list of [byte].
    - [float] is Rocq's primitive binary64 [float], the same format.
    - The module globals [_telem] and [_last_telem_time] and the selector
      [sel] are fields of one [World] record that every function threads.
      [ConnState] objects live in a store keyed by their socket, so that
      every reference to a connection sees the same [closed] flag and the
      same buffer, registered or not.
    - What the process does to the outside (prints, socket writes, calls
      of the actuator facade and of the Picarx driver) is appended to the
      [log] of the world, in program order.
    - What the outside decides comes from an [Env] of oracles (the clock,
      whether a write raises, the CPU temperature) and from the inputs of
      the handlers (what [recv] and [accept] do, what [select] reports).
    - An exception that nothing catches ends the loop: the functions in
      which one can escape return an [option].
    - The calls of the Picarx driver are taken to return. *)

From Stdlib Require Import NArith ZArith List Bool Lia PrimFloat.
From Stdlib.Strings Require Import String Ascii Byte.
From stdpp Require Import base option list gmap.
Import ListNotations.

Set Warnings "-inexact-float".

Open Scope N_scope.
Open Scope list_scope.

(** ** Text *)

(** A Python [str]: the sequence of its code points. *)
Definition text : Type := list N.

(** The code points of an ASCII literal. *)
Definition lit (s : string) : text :=
  map N_of_ascii (list_ascii_of_string s).

Definition NL : N := 10.
Definition CR : N := 13.

(** [str.isspace] on one code point: the whitespace that [str.strip]
    removes. *)
Definition is_space (c : N) : bool :=
  ((9 <=? c) && (c <=? 13)) || ((28 <=? c) && (c <=? 32))
  || (c =? 133) || (c =? 160) || (c =? 5760)
  || ((8192 <=? c) && (c <=? 8202))
  || (c =? 8232) || (c =? 8233) || (c =? 8239) || (c =? 8287)
  || (c =? 12288).

Fixpoint lstrip (s : text) : text :=
  match s with
  | [] => []
  | c :: r => if is_space c then lstrip r else s
  end.

Definition rstrip (s : text) : text := rev (lstrip (rev s)).

(** [s.strip()] *)
Definition strip (s : text) : text := rstrip (lstrip s).

Definition is_ascii (c : N) : bool := c <? 128.

Definition ascii_lower (c : N) : N :=
  if (65 <=? c) && (c <=? 90) then c + 32 else c.

(** [s.replace("\r\n", "\n")]: left to right, without overlap. *)
Fixpoint replace_crlf (s : text) : text :=
  match s with
  | [] => []
  | c :: r =>
      match r with
      | d :: r' =>
          if (c =? CR) && (d =? NL) then NL :: replace_crlf r'
          else c :: replace_crlf r
      | [] => [c]
      end
  end.

(** [s.find("\n")], with [None] for [-1]. *)
Fixpoint find_nl (s : text) : option nat :=
  match s with
  | [] => None
  | c :: r => if c =? NL then Some O else option_map S (find_nl r)
  end.

(** The complete lines of a buffer, without their newlines, and what
    follows the last newline. *)
Fixpoint split_lines (s : text) : list text * text :=
  match s with
  | [] => ([], [])
  | c :: r =>
      let '(ls, rest) := split_lines r in
      if c =? NL then ([] :: ls, rest)
      else match ls with
           | [] => ([], c :: rest)
           | l :: ls' => ((c :: l) :: ls', rest)
           end
  end.

Definition nonempty (s : text) : bool :=
  match s with [] => false | _ :: _ => true end.

(** The commands a buffer holds: its complete lines, stripped, the empty
    ones left out. *)
Definition cmds_of (s : text) : list text :=
  List.filter nonempty (map strip (split_lines s).1).

(** The partial line a buffer ends with. *)
Definition rest_of (s : text) : text := (split_lines s).2.

Definition is_lower_letter (c : N) : bool := (97 <=? c) && (c <=? 122).

(** ** Decoding *)

Definition is_cont (b : N) : bool := (128 <=? b) && (b <=? 191).

(** The second byte of a three or four byte sequence has a narrower range
    after the leads E0, ED, F0 and F4 (no overlong forms, no surrogates,
    nothing above U+10FFFF). *)
Definition second_ok (lead b2 : N) : bool :=
  is_cont b2 &&
  (if lead =? 224 then 160 <=? b2
   else if lead =? 237 then b2 <? 160
   else if lead =? 240 then 144 <=? b2
   else if lead =? 244 then b2 <? 144
   else true).

(** [chunk.decode("utf-8", errors="ignore")]: every well-formed sequence
    gives its code point, every byte that does not start one is dropped.
    Each call decodes its argument on its own: a sequence cut by the end of
    the argument is dropped like any other ill-formed one. *)
Fixpoint utf8_decode_ignore (bs : list byte) : text :=
  match bs with
  | [] => []
  | b :: rest =>
      let c := Byte.to_N b in
      if c <? 128 then c :: utf8_decode_ignore rest
      else if (194 <=? c) && (c <? 224) then
        match rest with
        | b2 :: r2 =>
            let c2 := Byte.to_N b2 in
            if is_cont c2
            then ((c - 192) * 64 + (c2 - 128)) :: utf8_decode_ignore r2
            else utf8_decode_ignore rest
        | _ => utf8_decode_ignore rest
        end
      else if (224 <=? c) && (c <? 240) then
        match rest with
        | b2 :: b3 :: r3 =>
            let c2 := Byte.to_N b2 in
            let c3 := Byte.to_N b3 in
            if second_ok c c2 && is_cont c3
            then ((c - 224) * 4096 + (c2 - 128) * 64 + (c3 - 128))
                   :: utf8_decode_ignore r3
            else utf8_decode_ignore rest
        | _ => utf8_decode_ignore rest
        end
      else if (240 <=? c) && (c <? 245) then
        match rest with
        | b2 :: b3 :: b4 :: r4 =>
            let c2 := Byte.to_N b2 in
            let c3 := Byte.to_N b3 in
            let c4 := Byte.to_N b4 in
            if second_ok c c2 && is_cont c3 && is_cont c4
            then ((c - 240) * 262144 + (c2 - 128) * 4096
                  + (c3 - 128) * 64 + (c4 - 128))
                   :: utf8_decode_ignore r4
            else utf8_decode_ignore rest
        | _ => utf8_decode_ignore rest
        end
      else utf8_decode_ignore rest
  end.

(** ** The environment *)

(** A peer address, [(host, port)]. *)
Definition Addr : Type := (string * Z)%type.

Record Env : Type := {
  (** [px] is not [None]: the Picarx driver was imported and built. *)
  px_present : bool;
  (** the value of the [k]-th call of [time.time()] *)
  clock : nat -> float;
  (** whether the [k]-th call of [sendall] returns ([false]: it raises) *)
  send_ok : nat -> bool;
  (** the value of the [k]-th call of [_cpu_temp_c()] *)
  cpu_temp : nat -> float;
  (** [str.lower] on a string that is not all ASCII: the case tables are
      the runtime's *)
  unicode_lower : text -> text;
  (** [round(x, 2)] *)
  py_round2 : float -> float
}.

(** ** Data *)

(** [_telem], with the inner dictionary [wifi_return_value] flattened. *)
Record Telem : Type := {
  direction : text;
  speed_mps : float;
  distance_m : float;
  tempC : float;
  wrv_battery : Z;
  wrv_moving : text;
  wrv_steer : text
}.

(** [ConnState], without its socket: the socket is the key of the object
    in the store. *)
Record ConnState : Type := {
  addr : Addr;
  buf_in : text;
  last_push : float;
  closed : bool
}.

(** A key of the selector: the listening socket ([data=None]) or a client
    socket whose data is its [ConnState]. *)
Inductive SelKey : Type :=
| KListen
| KConn (sock : nat).

(** The messages printed. *)
Inductive Diag : Type :=
| DCmd (c : text)
| DWarnUnknown (c : text)
| DClient (a : Addr)
| DRx (a : Addr) (s : text)
| DAckErr (a : Addr)
| DDisconnected (a : Addr)
| DSendErr (a : Addr).

(** The calls of the Picarx driver. *)
Inductive PxCall : Type :=
| PxForward (speed : Z)
| PxBackward (speed : Z)
| PxStop
| PxServo (angle : Z).

(** What is written to a socket: a line of text, or the JSON of a
    telemetry record followed by a newline. *)
Inductive Payload : Type :=
| PText (s : text)
| PJsonLine (t : Telem).

Inductive Event : Type :=
| EvPrint (d : Diag)
| EvSetMotion (m : text)
| EvSetSteer (d : text)
| EvPx (c : PxCall)
| EvSend (sock : nat) (p : Payload) (ok : bool)
| EvUnregister (sock : nat)
| EvClose (sock : nat).

Record World : Type := {
  telem : Telem;
  last_telem_time : float;
  heap : gmap nat ConnState;
  sel_map : list SelKey;
  next_sock : nat;
  n_clock : nat;
  n_send : nat;
  n_temp : nat;
  log : list Event
}.

(** What [recv(4096)] does: it returns bytes (none when the peer has
    closed), or raises because nothing is there yet, or raises otherwise. *)
Inductive RecvResult : Type :=
| RecvBytes (chunk : list byte)
| RecvWouldBlock
| RecvFail.

(** What [accept()] does. *)
Inductive AcceptResult : Type :=
| AcceptConn (a : Addr)
| AcceptRaise.

(** A descriptor reported ready by [select]. *)
Inductive ReadyEv : Type :=
| RdListen (r : AcceptResult)
| RdConn (sock : nat) (r : RecvResult).

#[global] Instance SelKey_eq_dec : EqDecision SelKey.
Proof. solve_decision. Defined.

(** ** Field updates *)

Definition with_telem (t : Telem) (w : World) : World :=
  {| telem := t; last_telem_time := last_telem_time w; heap := heap w;
     sel_map := sel_map w; next_sock := next_sock w; n_clock := n_clock w;
     n_send := n_send w; n_temp := n_temp w; log := log w |}.

Definition with_last_telem_time (x : float) (w : World) : World :=
  {| telem := telem w; last_telem_time := x; heap := heap w;
     sel_map := sel_map w; next_sock := next_sock w; n_clock := n_clock w;
     n_send := n_send w; n_temp := n_temp w; log := log w |}.

Definition with_heap (h : gmap nat ConnState) (w : World) : World :=
  {| telem := telem w; last_telem_time := last_telem_time w; heap := h;
     sel_map := sel_map w; next_sock := next_sock w; n_clock := n_clock w;
     n_send := n_send w; n_temp := n_temp w; log := log w |}.

Definition with_sel_map (m : list SelKey) (w : World) : World :=
  {| telem := telem w; last_telem_time := last_telem_time w; heap := heap w;
     sel_map := m; next_sock := next_sock w; n_clock := n_clock w;
     n_send := n_send w; n_temp := n_temp w; log := log w |}.

Definition with_next_sock (n : nat) (w : World) : World :=
  {| telem := telem w; last_telem_time := last_telem_time w; heap := heap w;
     sel_map := sel_map w; next_sock := n; n_clock := n_clock w;
     n_send := n_send w; n_temp := n_temp w; log := log w |}.

Definition with_n_clock (n : nat) (w : World) : World :=
  {| telem := telem w; last_telem_time := last_telem_time w; heap := heap w;
     sel_map := sel_map w; next_sock := next_sock w; n_clock := n;
     n_send := n_send w; n_temp := n_temp w; log := log w |}.

Definition with_n_send (n : nat) (w : World) : World :=
  {| telem := telem w; last_telem_time := last_telem_time w; heap := heap w;
     sel_map := sel_map w; next_sock := next_sock w; n_clock := n_clock w;
     n_send := n; n_temp := n_temp w; log := log w |}.

Definition with_n_temp (n : nat) (w : World) : World :=
  {| telem := telem w; last_telem_time := last_telem_time w; heap := heap w;
     sel_map := sel_map w; next_sock := next_sock w; n_clock := n_clock w;
     n_send := n_send w; n_temp := n; log := log w |}.

Definition with_log (l : list Event) (w : World) : World :=
  {| telem := telem w; last_telem_time := last_telem_time w; heap := heap w;
     sel_map := sel_map w; next_sock := next_sock w; n_clock := n_clock w;
     n_send := n_send w; n_temp := n_temp w; log := l |}.

(** Append one event to the log. *)
Definition emit (e : Event) (w : World) : World :=
  with_log (log w ++ [e]) w.

Definition set_direction (d : text) (t : Telem) : Telem :=
  {| direction := d; speed_mps := speed_mps t; distance_m := distance_m t;
     tempC := tempC t; wrv_battery := wrv_battery t;
     wrv_moving := wrv_moving t; wrv_steer := wrv_steer t |}.

Definition set_speed_mps (x : float) (t : Telem) : Telem :=
  {| direction := direction t; speed_mps := x; distance_m := distance_m t;
     tempC := tempC t; wrv_battery := wrv_battery t;
     wrv_moving := wrv_moving t; wrv_steer := wrv_steer t |}.

Definition set_distance_m (x : float) (t : Telem) : Telem :=
  {| direction := direction t; speed_mps := speed_mps t; distance_m := x;
     tempC := tempC t; wrv_battery := wrv_battery t;
     wrv_moving := wrv_moving t; wrv_steer := wrv_steer t |}.

Definition set_tempC (x : float) (t : Telem) : Telem :=
  {| direction := direction t; speed_mps := speed_mps t;
     distance_m := distance_m t; tempC := x; wrv_battery := wrv_battery t;
     wrv_moving := wrv_moving t; wrv_steer := wrv_steer t |}.

Definition set_wrv_moving (m : text) (t : Telem) : Telem :=
  {| direction := direction t; speed_mps := speed_mps t;
     distance_m := distance_m t; tempC := tempC t;
     wrv_battery := wrv_battery t; wrv_moving := m;
     wrv_steer := wrv_steer t |}.

Definition set_wrv_steer (s : text) (t : Telem) : Telem :=
  {| direction := direction t; speed_mps := speed_mps t;
     distance_m := distance_m t; tempC := tempC t;
     wrv_battery := wrv_battery t; wrv_moving := wrv_moving t;
     wrv_steer := s |}.

Definition set_buf_in (b : text) (st : ConnState) : ConnState :=
  {| addr := addr st; buf_in := b; last_push := last_push st;
     closed := closed st |}.

Definition set_last_push (x : float) (st : ConnState) : ConnState :=
  {| addr := addr st; buf_in := buf_in st; last_push := x;
     closed := closed st |}.

Definition set_closed (b : bool) (st : ConnState) : ConnState :=
  {| addr := addr st; buf_in := buf_in st; last_push := last_push st;
     closed := b |}.

(** Division of floats as Python has it: by zero it raises. *)
Definition py_fdiv (a b : float) : option float :=
  if PrimFloat.eqb b 0%float then None else Some (a / b)%float.

(** The tokens that [apply_cmd] has a branch for: the recognized set of
    the code. *)
Definition recognized (c : text) : bool :=
  bool_decide (c = lit "forward") || bool_decide (c = lit "back")
  || bool_decide (c = lit "stop") || bool_decide (c = lit "left")
  || bool_decide (c = lit "right") || bool_decide (c = lit "center")
  || bool_decide (c = lit "resetodo").

(** The recognized set as the specification lists it: [forward], [back],
    [stop], [left], [right], [center], [reset-odometer]. It is not the set
    of the code: the last token is ["resetodo"] there. *)
Definition spec_recognized (c : text) : bool :=
  bool_decide (c = lit "forward") || bool_decide (c = lit "back")
  || bool_decide (c = lit "stop") || bool_decide (c = lit "left")
  || bool_decide (c = lit "right") || bool_decide (c = lit "center")
  || bool_decide (c = lit "reset-odometer").

Definition CRUISE_SPEED : Z := 80.
Definition DIR_MAX_ANGLE : Z := 22.

Section Reactor.

Variable env : Env.

(** [s.lower()] *)
Definition py_lower (s : text) : text :=
  if forallb is_ascii s then map ascii_lower s else unicode_lower env s.

(** ** Hardware layer *)

(** The facade records that it was called, then drives the hardware if
    there is any. The calls of the driver are taken to return, as the
    facade expects of them. *)
Definition set_motion (motion : text) (w : World) : World :=
  let w := emit (EvSetMotion motion) w in
  if negb (px_present env) then w
  else
    let m := py_lower motion in
    if bool_decide (m = lit "forward") then emit (EvPx (PxForward CRUISE_SPEED)) w
    else if bool_decide (m = lit "back") then emit (EvPx (PxBackward CRUISE_SPEED)) w
    else if bool_decide (m = lit "stop") then emit (EvPx PxStop) w
    else emit (EvPx PxStop) w.

Definition set_steer (d0 : text) (w : World) : World :=
  let w := emit (EvSetSteer d0) w in
  if negb (px_present env) then w
  else
    let d := py_lower d0 in
    if bool_decide (d = lit "left") then emit (EvPx (PxServo (- DIR_MAX_ANGLE))) w
    else if bool_decide (d = lit "right") then emit (EvPx (PxServo DIR_MAX_ANGLE)) w
    else if bool_decide (d = lit "center") then emit (EvPx (PxServo 0)) w
    else w.

Definition hw_safe_stop (w : World) : World :=
  set_steer (lit "center") (set_motion (lit "stop") w).

(** ** Telemetry *)

(** The globals as the module leaves them when it is loaded, and the
    selector as [main] leaves it before its loop. *)
Definition initial_world : World :=
  {| telem := {| direction := lit "stop"; speed_mps := 0%float;
                 distance_m := 0%float; tempC := cpu_temp env 0%nat;
                 wrv_battery := 80%Z; wrv_moving := lit "stop";
                 wrv_steer := lit "center" |};
     last_telem_time := clock env 0%nat;
     heap := ∅;
     sel_map := [KListen];
     next_sock := 0%nat;
     n_clock := 1%nat;
     n_send := 0%nat;
     n_temp := 1%nat;
     log := [] |}.

(** [telemetry_tick()]: the odometer estimate, then the serialized record. *)
Definition telemetry_tick (w : World) : Payload * World :=
  let now := clock env (n_clock w) in
  let w := with_n_clock (S (n_clock w)) w in
  let dt := (now - last_telem_time w)%float in
  let w := with_last_telem_time now w in
  let speed := speed_mps (telem w) in
  let w := with_telem
             (set_distance_m
                (py_round2 env (distance_m (telem w) + speed * dt)%float)
                (telem w)) w in
  let temp := cpu_temp env (n_temp w) in
  let w := with_n_temp (S (n_temp w)) w in
  let w := with_telem (set_tempC temp (telem w)) w in
  (PJsonLine (telem w), w).

(** The telemetry record [telemetry_tick] leaves and serializes. *)
Definition ticked (w : World) : Telem :=
  set_tempC (cpu_temp env (n_temp w))
    (set_distance_m
       (py_round2 env
          (distance_m (telem w)
           + speed_mps (telem w)
             * (clock env (n_clock w) - last_telem_time w))%float)
       (telem w)).

(** ** The command dispatcher *)

Definition upd_telem (f : Telem -> Telem) (w : World) : World :=
  with_telem (f (telem w)) w.

Definition apply_cmd (cmd : text) (w : World) : World :=
  let c := py_lower (strip cmd) in
  let w := emit (EvPrint (DCmd c)) w in
  if bool_decide (c = lit "forward") then
    let w := set_motion (lit "forward") w in
    let w := upd_telem (set_direction (lit "forward")) w in
    let w := upd_telem (set_wrv_moving (lit "forward")) w in
    upd_telem (set_speed_mps 0.55%float) w
  else if bool_decide (c = lit "back") then
    let w := set_motion (lit "back") w in
    let w := upd_telem (set_direction (lit "back")) w in
    let w := upd_telem (set_wrv_moving (lit "back")) w in
    upd_telem (set_speed_mps 0.55%float) w
  else if bool_decide (c = lit "stop") then
    let w := set_motion (lit "stop") w in
    let w := upd_telem (set_direction (lit "stop")) w in
    let w := upd_telem (set_wrv_moving (lit "stop")) w in
    upd_telem (set_speed_mps 0%float) w
  else if bool_decide (c = lit "left") then
    let w := set_steer (lit "left") w in
    upd_telem (set_wrv_steer (lit "left")) w
  else if bool_decide (c = lit "right") then
    let w := set_steer (lit "right") w in
    upd_telem (set_wrv_steer (lit "right")) w
  else if bool_decide (c = lit "center") then
    let w := set_steer (lit "center") w in
    upd_telem (set_wrv_steer (lit "center")) w
  else if bool_decide (c = lit "resetodo") then
    upd_telem (set_distance_m 0%float) w
  else
    emit (EvPrint (DWarnUnknown c)) w.

(** ** The reactor *)

(** [state.buf_in = b] *)
Definition store_buf (sock : nat) (b : text) (w : World) : World :=
  with_heap (alter (set_buf_in b) sock (heap w)) w.

(** [sel.unregister(sock)]; the [KeyError] of a socket that is not
    registered is swallowed by the caller. *)
Definition unregister (sock : nat) (w : World) : World :=
  with_sel_map (filter (fun k => k <> KConn sock) (sel_map w))
    (emit (EvUnregister sock) w).

Definition close_conn (sock : nat) (w : World) : World :=
  match heap w !! sock with
  | None => w
  | Some st =>
      if closed st then w
      else
        let w := with_heap (<[sock := set_closed true st]> (heap w)) w in
        let w := unregister sock w in
        let w := emit (EvClose sock) w in
        hw_safe_stop w
  end.

(** [accept(sock)] when the listening socket hands out a connection from
    [a]: the new socket is the next fresh one. *)
Definition accept (a : Addr) (w : World) : World :=
  let sock := next_sock w in
  let w := with_next_sock (S sock) w in
  let w := emit (EvPrint (DClient a)) w in
  let st := {| addr := a; buf_in := []; last_push := 0%float;
               closed := false |} in
  let w := with_heap (<[sock := st]> (heap w)) w in
  with_sel_map (sel_map w ++ [KConn sock]) w.

(** The ACK of one command: [sendall] of ["ACK:" + cmd + "\n"], and the
    diagnostic when it raises. *)
Definition send_ack (sock : nat) (a : Addr) (cmd : text) (w : World) : World :=
  let ok := send_ok env (n_send w) in
  let w := with_n_send (S (n_send w)) w in
  let w := emit (EvSend sock (PText (lit "ACK:" ++ cmd ++ [NL])) ok) w in
  if ok then w else emit (EvPrint (DAckErr a)) w.

(** The [while True] loop of [service]. Every turn that does not leave
    the loop removes at least the newline it found from the buffer, so
    one unit of fuel per code point of the buffer, and one more, is enough:
    see [service_loop_exits]. *)
Fixpoint service_loop (fuel : nat) (sock : nat) (w : World) : World :=
  match fuel with
  | O => w
  | S fuel' =>
      match heap w !! sock with
      | None => w
      | Some st =>
          match find_nl (buf_in st) with
          | None => w
          | Some nl =>
              let line := take nl (buf_in st) in
              let w := store_buf sock (drop (S nl) (buf_in st)) w in
              let cmd := strip line in
              match cmd with
              | [] => service_loop fuel' sock w
              | _ :: _ =>
                  let w := send_ack sock (addr st) cmd w in
                  let w := apply_cmd cmd w in
                  service_loop fuel' sock w
              end
          end
      end
  end.

(** [service(state)], given what [recv] does. A closed socket makes
    [recv] raise. *)
Definition service (sock : nat) (r : RecvResult) (w : World) : World :=
  match heap w !! sock with
  | None => w
  | Some st =>
      let fail w := close_conn sock (emit (EvPrint (DDisconnected (addr st))) w) in
      match (if closed st then RecvFail else r) with
      | RecvWouldBlock => w
      | RecvFail => fail w
      | RecvBytes [] => fail w
      | RecvBytes chunk =>
          let s := utf8_decode_ignore chunk in
          let w := emit (EvPrint (DRx (addr st) s)) w in
          let buf := buf_in st ++ replace_crlf s in
          let w := store_buf sock buf w in
          service_loop (S (length buf)) sock w
      end
  end.

(** [push_telem_if_due(state, hz)]; [None] when the division by [hz]
    raises, which nothing in [main] catches. *)
Definition push_telem_if_due (sock : nat) (hz : float) (w : World)
  : option World :=
  match heap w !! sock with
  | None => Some w
  | Some st =>
      let now := clock env (n_clock w) in
      let w := with_n_clock (S (n_clock w)) w in
      match py_fdiv 1%float hz with
      | None => None
      | Some period =>
          if PrimFloat.leb period (now - last_push st)%float then
            let '(payload, w) := telemetry_tick w in
            let ok := negb (closed st) && send_ok env (n_send w) in
            let w := with_n_send (S (n_send w)) w in
            let w := emit (EvSend sock payload ok) w in
            if ok then
              Some (with_heap (alter (set_last_push now) sock (heap w)) w)
            else
              Some (close_conn sock (emit (EvPrint (DSendErr (addr st))) w))
          else Some w
      end
  end.

(** The client sockets of the selector, in registration order. *)
Definition conn_socks (m : list SelKey) : list nat :=
  flat_map (fun k => match k with KListen => [] | KConn s => [s] end) m.

(** The first [for] of the loop of [main]: every ready descriptor is
    accepted from or serviced. [None]: [accept] raised. *)
Fixpoint service_phase (ready : list ReadyEv) (w : World) : option World :=
  match ready with
  | [] => Some w
  | RdListen (AcceptConn a) :: rest => service_phase rest (accept a w)
  | RdListen AcceptRaise :: _ => None
  | RdConn sock r :: rest => service_phase rest (service sock r w)
  end.

(** The second [for]: telemetry to the connections of a snapshot of the
    selector. *)
Fixpoint push_phase (socks : list nat) (hz : float) (w : World)
  : option World :=
  match socks with
  | [] => Some w
  | sock :: rest =>
      match push_telem_if_due sock hz w with
      | None => None
      | Some w' => push_phase rest hz w'
      end
  end.

(** Whether no push is due in the push phase over [socks]: each
    connection in turn fails the test [now - state.last_push >= 1.0 / hz]
    of [push_telem_if_due] at the reading of the clock that its own call
    makes, the [k]-th for the first of them. A call that finds no push
    due reads the clock once and does nothing else, so the next call
    makes the next reading; a socket without a connection reads
    nothing. *)
Fixpoint none_due (socks : list nat) (hz : float) (w : World) (k : nat)
  : bool :=
  match socks with
  | [] => true
  | sock :: rest =>
      match heap w !! sock with
      | None => none_due rest hz w k
      | Some st =>
          match py_fdiv 1%float hz with
          | None => false
          | Some period =>
              negb (PrimFloat.leb period (clock env k - last_push st)%float)
              && none_due rest hz w (S k)
          end
      end
  end.

(** One turn of the [while True] of [main], given what [select] reports. *)
Definition heartbeat (ready : list ReadyEv) (w : World) : option World :=
  match service_phase ready w with
  | None => None
  | Some w1 => push_phase (conn_socks (sel_map w1)) 3%float w1
  end.

(** Successive turns of the loop. *)
Fixpoint run (inputs : list (list ReadyEv)) (w : World) : option World :=
  match inputs with
  | [] => Some w
  | ready :: rest =>
      match heartbeat ready w with
      | None => None
      | Some w' => run rest w'
      end
  end.

(** The [finally] of [main]. *)
Definition shutdown (w : World) : World :=
  let w := fold_left (fun w sock => close_conn sock w)
             (conn_socks (sel_map w)) w in
  let w := with_sel_map (filter (fun k => k <> KListen) (sel_map w)) w in
  hw_safe_stop w.

(** ** What the handlers add to the log *)

Definition px_events (c : PxCall) : list Event :=
  if px_present env then [EvPx c] else [].

Definition motion_events (motion : text) : list Event :=
  EvSetMotion motion ::
  (let m := py_lower motion in
   if bool_decide (m = lit "forward") then px_events (PxForward CRUISE_SPEED)
   else if bool_decide (m = lit "back") then px_events (PxBackward CRUISE_SPEED)
   else px_events PxStop).

Definition steer_events (d0 : text) : list Event :=
  EvSetSteer d0 ::
  (let d := py_lower d0 in
   if bool_decide (d = lit "left") then px_events (PxServo (- DIR_MAX_ANGLE))
   else if bool_decide (d = lit "right") then px_events (PxServo DIR_MAX_ANGLE)
   else if bool_decide (d = lit "center") then px_events (PxServo 0)
   else []).

Definition safe_stop_events : list Event :=
  motion_events (lit "stop") ++ steer_events (lit "center").

(** The events of [apply_cmd] on a command whose normal form is [c]. *)
Definition dispatch_events (c : text) : list Event :=
  EvPrint (DCmd c) ::
  (if bool_decide (c = lit "forward") then motion_events (lit "forward")
   else if bool_decide (c = lit "back") then motion_events (lit "back")
   else if bool_decide (c = lit "stop") then motion_events (lit "stop")
   else if bool_decide (c = lit "left") then steer_events (lit "left")
   else if bool_decide (c = lit "right") then steer_events (lit "right")
   else if bool_decide (c = lit "center") then steer_events (lit "center")
   else if bool_decide (c = lit "resetodo") then []
   else [EvPrint (DWarnUnknown c)]).

(** The telemetry record after [apply_cmd] on such a command. *)
Definition dispatch_telem (c : text) (t : Telem) : Telem :=
  if bool_decide (c = lit "forward") then
    set_speed_mps 0.55%float
      (set_wrv_moving (lit "forward") (set_direction (lit "forward") t))
  else if bool_decide (c = lit "back") then
    set_speed_mps 0.55%float
      (set_wrv_moving (lit "back") (set_direction (lit "back") t))
  else if bool_decide (c = lit "stop") then
    set_speed_mps 0%float
      (set_wrv_moving (lit "stop") (set_direction (lit "stop") t))
  else if bool_decide (c = lit "left") then set_wrv_steer (lit "left") t
  else if bool_decide (c = lit "right") then set_wrv_steer (lit "right") t
  else if bool_decide (c = lit "center") then set_wrv_steer (lit "center") t
  else if bool_decide (c = lit "resetodo") then set_distance_m 0%float t
  else t.

(** The normal form [apply_cmd] compares with its tokens. *)
Definition normalize (cmd : text) : text := py_lower (strip cmd).

(** The events of the ACK of [cmd] when the write returns ([ok]) or
    raises. *)
Definition ack_events (sock : nat) (a : Addr) (cmd : text) (ok : bool)
  : list Event :=
  EvSend sock (PText (lit "ACK:" ++ cmd ++ [NL])) ok ::
  (if ok then [] else [EvPrint (DAckErr a)]).

(** One non-empty line in [service]: the ACK, then the dispatch. *)
Definition handle_cmd (sock : nat) (a : Addr) (w : World) (cmd : text)
  : World :=
  apply_cmd cmd (send_ack sock a cmd w).

(** The events of the commands [cmds] served in this order on one
    connection, when [k] writes were made before. *)
Fixpoint served_events (sock : nat) (a : Addr) (k : nat) (cmds : list text)
  : list Event :=
  match cmds with
  | [] => []
  | cmd :: rest =>
      ack_events sock a cmd (send_ok env k)
      ++ dispatch_events (normalize cmd)
      ++ served_events sock a (S k) rest
  end.

(** The telemetry record after these commands. *)
Definition served_telem (cmds : list text) (t : Telem) : Telem :=
  fold_left (fun t cmd => dispatch_telem (normalize cmd) t) cmds t.

(** What [service] does with a buffer [buf], the print of the raw read
    apart: the commands of its complete lines are handled in order and its
    pending line is kept. *)
Definition served (sock : nat) (a : Addr) (buf : text) (w : World) : World :=
  store_buf sock (rest_of buf)
    (fold_left (handle_cmd sock a) (cmds_of buf) w).

(** Successive reads on one connection. *)
Fixpoint feed (sock : nat) (chunks : list (list byte)) (w : World) : World :=
  match chunks with
  | [] => w
  | chunk :: rest => feed sock rest (service sock (RecvBytes chunk) w)
  end.

(** The world after the tick of a due push and the write of its line. *)
Definition pushed (sock : nat) (ok : bool) (w : World) : World :=
  let w1 := with_n_clock (S (n_clock w)) w in
  with_log (log w ++ [EvSend sock (PJsonLine (ticked w1)) ok])
    (with_n_send (S (n_send w))
       (with_telem (ticked w1)
          (with_n_temp (S (n_temp w))
             (with_last_telem_time (clock env (S (n_clock w)))
                (with_n_clock (S (S (n_clock w))) w))))).

End Reactor.

Arguments lit : simpl never.

(** ** Observations on the log *)

Definition is_rx (e : Event) : bool :=
  match e with EvPrint (DRx _ _) => true | _ => false end.

(** A world without the [[RX ...]] lines of its log, which echo the raw
    reads. *)
Definition without_rx (w : World) : World :=
  with_log (List.filter (fun e => negb (is_rx e)) (log w)) w.

(** The commands [apply_cmd] was called with, as it printed them. *)
Definition dispatched (l : list Event) : list text :=
  flat_map (fun e => match e with EvPrint (DCmd c) => [c] | _ => [] end) l.

(** The calls of the actuator facade. *)
Definition is_actuator_call (e : Event) : bool :=
  match e with
  | EvSetMotion _ | EvSetSteer _ | EvPx _ => true
  | _ => false
  end.

(** From [w] to [w'] the odometer was left alone: the log has grown, the
    time of the last sample is the same, and the accumulated distance is
    the same unless a ["resetodo"] was dispatched in between, which left
    it at 0. *)
Definition odometer_kept (w w' : World) : Prop :=
  last_telem_time w' = last_telem_time w
  /\ exists evs,
       log w' = log w ++ evs
       /\ (distance_m (telem w') = distance_m (telem w)
           \/ (In (lit "resetodo") (dispatched evs)
               /\ distance_m (telem w') = 0%float)).

(** A connection [sock] is open in [w]. *)
Definition conn_open (w : World) (sock : nat) : Prop :=
  exists st, heap w !! sock = Some st /\ closed st = false.

(** A list of events without any print of a raw read. *)
Definition quiet (l : list Event) : Prop :=
  forallb (fun e => negb (is_rx e)) l = true.

(** [w'] has the log of [w] and more, and the connection [s] as [w] has
    it: same object, still registered if it was. *)
Definition keeps_conn (s : nat) (w w' : World) : Prop :=
  (exists evs, log w' = log w ++ evs)
  /\ heap w' !! s = heap w !! s
  /\ (In (KConn s) (sel_map w) -> In (KConn s) (sel_map w'))
  /\ (next_sock w <= next_sock w')%nat.

(** ** Sample environments and worlds *)

(** Hardware present, every write returns, the clock advances by a tenth
    of a second from one reading to the next. The rounding and the case
    tables beyond ASCII are stand-ins: nothing below depends on them. *)
Definition env_ok : Env :=
  {| px_present := true;
     clock := fun k => Nat.iter k (fun x => (x + 0.1)%float) 1700000000%float;
     send_ok := fun _ => true;
     cpu_temp := fun _ => 42%float;
     unicode_lower := fun s => s;
     py_round2 := fun x => x |}.

(** The same with every write raising. *)
Definition env_send_fails : Env :=
  {| px_present := true;
     clock := clock env_ok;
     send_ok := fun _ => false;
     cpu_temp := cpu_temp env_ok;
     unicode_lower := unicode_lower env_ok;
     py_round2 := py_round2 env_ok |}.

(** The same as [env_ok] with a clock that stands still. *)
Definition env_frozen : Env :=
  {| px_present := true;
     clock := fun _ => 1700000000%float;
     send_ok := fun _ => true;
     cpu_temp := fun _ => 42%float;
     unicode_lower := fun s => s;
     py_round2 := fun x => x |}.

Definition peer : Addr := ("10.0.0.2"%string, 50000%Z).

(** One client connected, nothing received yet. *)
Definition world_one_client (e : Env) : World := accept peer (initial_world e).

(** A connection as [accept] makes it. *)
Definition fresh_conn : ConnState :=
  {| addr := peer; buf_in := []; last_push := 0%float; closed := false |}.

(** ["forward\r"] and then ["\nleft\r\n"]: a CR LF cut by the end of a read. *)
Definition chunks_crlf_cut : list (list byte) :=
  [list_byte_of_string "forward" ++ [x0d];
   x0a :: list_byte_of_string "left" ++ [x0d; x0a]].

(** The two bytes of U+00E9 and a newline, the read ending between the two. *)
Definition chunks_e_acute_cut : list (list byte) := [[xc3]; [xa9; x0a]].

(** The initial world with [d] on the odometer. *)
Definition world_with_distance (e : Env) (d : float) : World :=
  with_telem (set_distance_m d (telem (initial_world e))) (initial_world e).

(** The client has sent ["forward\n"]. *)
Definition world_forward (e : Env) : World :=
  service e 0%nat (RecvBytes (list_byte_of_string "forward" ++ [x0a]))
    (world_one_client e).

(** Then it has gone: [recv] returned no byte. *)
Definition world_forward_gone (e : Env) : World :=
  service e 0%nat (RecvBytes []) (world_forward e).

(** One client, one turn of the loop done: its first line was pushed. *)
Definition world_pushed_once (e : Env) : World :=
  match heartbeat e [] (world_one_client e) with
  | Some w => w
  | None => world_one_client e
  end.

(** ** Invariants of the reactor *)

(** The motion tokens and the steering tokens of [apply_cmd]. *)
Definition is_motion (c : text) : bool :=
  bool_decide (c = lit "forward") || bool_decide (c = lit "back")
  || bool_decide (c = lit "stop").

Definition is_steer (c : text) : bool :=
  bool_decide (c = lit "left") || bool_decide (c = lit "right")
  || bool_decide (c = lit "center").

(** The selector and the store agree: the registered connections are the
    open ones, each registered once; every connection was handed out by
    [accept]; and no buffer holds a complete line. *)
Record wf_world (w : World) : Prop := {
  wf_registered_open :
    forall s, In (KConn s) (sel_map w) -> conn_open w s;
  wf_open_registered :
    forall s st, heap w !! s = Some st -> closed st = false ->
                 In (KConn s) (sel_map w);
  wf_fresh :
    forall s st, heap w !! s = Some st -> (s < next_sock w)%nat;
  wf_drained :
    forall s st, heap w !! s = Some st -> find_nl (buf_in st) = None;
  wf_nodup : NoDup (sel_map w)
}.

(** The shapes the telemetry record takes: the direction is one of the
    three motion tokens, with the speed that goes with it; the [moving]
    entry mirrors the direction; the [steer] entry is one of the three
    steering tokens; the battery entry is the constant it started with. *)
Definition telem_ok (t : Telem) : Prop :=
  ((direction t = lit "forward" /\ speed_mps t = 0.55%float)
   \/ (direction t = lit "back" /\ speed_mps t = 0.55%float)
   \/ (direction t = lit "stop" /\ speed_mps t = 0%float))
  /\ wrv_moving t = direction t
  /\ (wrv_steer t = lit "left" \/ wrv_steer t = lit "right"
      \/ wrv_steer t = lit "center")
  /\ wrv_battery t = 80%Z.

(** The calls of the driver within the configured magnitudes. *)
Definition px_call_ok (c : PxCall) : bool :=
  match c with
  | PxForward v | PxBackward v => (v =? CRUISE_SPEED)%Z
  | PxStop => true
  | PxServo a =>
      ((a =? - DIR_MAX_ANGLE) || (a =? 0) || (a =? DIR_MAX_ANGLE))%Z
  end.

(** An event that is no call of the driver, or one that is within the
    magnitudes, made with hardware present ([hw]). *)
Definition event_ok (hw : bool) (e : Event) : bool :=
  match e with
  | EvPx c => hw && px_call_ok c
  | _ => true
  end.

(** A telemetry line written to [s]. *)
Definition is_telemetry_to (s : nat) (e : Event) : bool :=
  match e with
  | EvSend s' (PJsonLine _) _ => Nat.eqb s' s
  | _ => false
  end.

(** The telemetry lines written to [s] among some events. *)
Definition telemetry_sends (s : nat) (l : list Event) : nat :=
  length (List.filter (is_telemetry_to s) l).

(** The writes, of any kind, among some events. *)
Definition is_send (e : Event) : bool :=
  match e with EvSend _ _ _ => true | _ => false end.

(** The log of [w'] is the log of [w] followed by events that all
    satisfy [p]. *)
Definition log_grows (p : Event -> bool) (w w' : World) : Prop :=
  exists evs, log w' = log w ++ evs /\ forallb p evs = true.


(** An event that is no write, or a write to [sock]. *)
Definition sends_only_to (sock : nat) (e : Event) : bool :=
  match e with
  | EvSend s _ _ => Nat.eqb s sock
  | _ => true
  end.

(** From [w] to [w'] only the connection [sock] was touched: every other
    connection is the same object, every other key of the selector is
    registered as it was, and whatever was written was written to
    [sock]. *)
Definition touches_only (sock : nat) (w w' : World) : Prop :=
  (forall s, s <> sock -> heap w' !! s = heap w !! s)
  /\ (forall k, k <> KConn sock -> In k (sel_map w') <-> In k (sel_map w))
  /\ log_grows (sends_only_to sock) w w'.

(** ** Writes and closes in the log *)

Definition is_close (e : Event) : bool :=
  match e with EvClose _ => true | _ => false end.

Definition no_send (e : Event) : bool := negb (is_send e).

(** An event of a handler of [sock] before any teardown: no close, and
    no write but to [sock]. *)
Definition own_event (sock : nat) (e : Event) : bool :=
  sends_only_to sock e && negb (is_close e).

(** The sockets closed among some events. *)
Definition closes (l : list Event) : list nat :=
  flat_map (fun e => match e with EvClose s => [s] | _ => [] end) l.

(** Reading a log with the sockets closed so far in [gone]: no write,
    done or attempted, goes to one of them. *)
Fixpoint silent_after_close (gone : list nat) (l : list Event) : bool :=
  match l with
  | [] => true
  | EvSend s _ _ :: l =>
      negb (existsb (Nat.eqb s) gone) && silent_after_close gone l
  | EvClose s :: l => silent_after_close (s :: gone) l
  | _ :: l => silent_after_close gone l
  end.

(** The connection [s] is marked closed in [w]. *)
Definition closed_in (w : World) (s : nat) : Prop :=
  exists st, heap w !! s = Some st /\ closed st = true.

(** The log and the store agree on what was closed: nothing was written
    to a socket after its close, and every socket the log closes is
    marked closed. *)
Definition log_inv (w : World) : Prop :=
  silent_after_close [] (log w) = true
  /\ forall s, In s (closes (log w)) -> closed_in w s.

(** ** A sample session *)

Definition peer2 : Addr := ("10.0.0.3"%string, 50001%Z).

(** Four turns of the loop: a client connects; it sends ["forward\n"]; a
    second client connects and the first sends ["left\nsto"]; the first
    goes away. *)
Definition session : list (list ReadyEv) :=
  [ [RdListen (AcceptConn peer)];
    [RdConn 0%nat (RecvBytes (list_byte_of_string "forward" ++ [x0a]))];
    [RdListen (AcceptConn peer2);
     RdConn 0%nat (RecvBytes (list_byte_of_string "left" ++ [x0a]
                              ++ list_byte_of_string "sto"))];
    [RdConn 0%nat (RecvBytes [])] ].

(** The world the loop reaches on [inputs]. *)
Definition world_after (e : Env) (inputs : list (list ReadyEv)) : World :=
  match run e inputs (initial_world e) with
  | Some w => w
  | None => initial_world e
  end.

(** The sample session and one more turn, in which the second client
    sends ["stop\n"]. *)
Definition session_late : list (list ReadyEv) :=
  session
  ++ [[RdConn 1%nat (RecvBytes (list_byte_of_string "stop" ++ [x0a]))]].

(** ** Tactics *)

(** Reduce the projections of updated worlds. *)
Ltac fields :=
  cbn [telem last_telem_time heap sel_map next_sock n_clock n_send n_temp log
       emit upd_telem store_buf with_telem with_last_telem_time with_heap
       with_sel_map with_next_sock with_n_clock with_n_send with_n_temp
       with_log].

(** * Properties *)

Section Properties.

Variable env : Env.

(** *** Stripping *)

Lemma lstrip_spaces (pre s : text) :
  forallb is_space pre = true -> lstrip (pre ++ s) = lstrip s.
Proof.
  induction pre as [|c pre IH]; simpl; [reflexivity|].
  intros H. apply andb_true_iff in H as [Hc Hpre].
  rewrite Hc. apply IH, Hpre.
Qed.

Lemma lstrip_nonspace (c : N) (s : text) :
  is_space c = false -> lstrip (c :: s) = c :: s.
Proof. intros H. simpl. rewrite H. reflexivity. Qed.

Lemma forallb_rev {A} (f : A -> bool) (l : list A) :
  forallb f (rev l) = forallb f l.
Proof.
  induction l as [|x l IH]; simpl; [reflexivity|].
  rewrite forallb_app, IH. simpl. rewrite andb_true_r. apply andb_comm.
Qed.

(** Padding a token that neither starts nor ends with whitespace. *)
Lemma strip_padded (pre tok post : text) :
  forallb is_space pre = true ->
  forallb is_space post = true ->
  tok <> [] ->
  forallb (fun c => negb (is_space c)) tok = true ->
  strip (pre ++ tok ++ post) = tok.
Proof.
  intros Hpre Hpost Hne Htok. unfold strip, rstrip.
  rewrite lstrip_spaces by exact Hpre.
  destruct tok as [|c tok]; [congruence|].
  simpl in Htok. apply andb_true_iff in Htok as [Hc Htok].
  apply negb_true_iff in Hc.
  change ((c :: tok) ++ post) with (c :: (tok ++ post)).
  rewrite lstrip_nonspace by exact Hc.
  change (c :: tok ++ post) with ((c :: tok) ++ post).
  rewrite rev_app_distr.
  rewrite lstrip_spaces by (rewrite forallb_rev; exact Hpost).
  assert (Hrev : forallb (fun c => negb (is_space c)) (rev (c :: tok)) = true).
  { rewrite forallb_rev. simpl. rewrite Hc, Htok. reflexivity. }
  destruct (rev (c :: tok)) as [|d r] eqn:E.
  - apply (f_equal (@length N)) in E. rewrite length_rev in E. discriminate.
  - simpl in Hrev. apply andb_true_iff in Hrev as [Hd _].
    apply negb_true_iff in Hd. rewrite lstrip_nonspace by exact Hd.
    rewrite <- E. apply rev_involutive.
Qed.

Lemma lower_letter_source (c : N) :
  is_lower_letter (ascii_lower c) = true ->
  is_ascii c = true /\ is_space c = false.
Proof.
  unfold is_lower_letter, ascii_lower, is_ascii, is_space.
  intros H.
  assert (R : (65 <= c <= 90) \/ (97 <= c <= 122)).
  { destruct ((65 <=? c) && (c <=? 90)) eqn:E.
    - apply andb_true_iff in E as [E1 E2].
      apply N.leb_le in E1, E2. lia.
    - apply andb_true_iff in H as [H1 H2].
      apply N.leb_le in H1, H2. lia. }
  split.
  - apply N.ltb_lt. lia.
  - rewrite !orb_false_iff, !andb_false_iff, !N.leb_gt, !N.eqb_neq. lia.
Qed.

(** A spelling of a lower-case word in any mix of cases is ASCII and has
    no whitespace. *)
Lemma case_variant_shape (tok name : text) :
  map ascii_lower tok = name ->
  forallb is_lower_letter name = true ->
  forallb is_ascii tok = true
  /\ forallb (fun c => negb (is_space c)) tok = true.
Proof.
  revert name. induction tok as [|c tok IH]; intros name E H.
  - split; reflexivity.
  - destruct name as [|d name]; [discriminate|].
    simpl in E. injection E as Ed Ename.
    simpl in H. apply andb_true_iff in H as [Hd Hname].
    rewrite <- Ed in Hd. apply lower_letter_source in Hd as [Ha Hs].
    destruct (IH name Ename Hname) as [IH1 IH2].
    simpl. rewrite Ha, Hs, IH1, IH2. split; reflexivity.
Qed.

(** Surrounding whitespace and case do not matter to [normalize]. *)
Lemma normalize_padded (pre tok post name : text) :
  forallb is_space pre = true ->
  forallb is_space post = true ->
  map ascii_lower tok = name ->
  name <> [] ->
  forallb is_lower_letter name = true ->
  normalize env (pre ++ tok ++ post) = name.
Proof.
  intros Hpre Hpost E Hne Hname.
  destruct (case_variant_shape tok name E Hname) as [Ha Hs].
  unfold normalize. rewrite strip_padded; try assumption.
  - unfold py_lower. rewrite Ha. exact E.
  - intros ->. simpl in E. congruence.
Qed.

(** *** The hardware layer only writes to the log *)

Lemma set_motion_eq (m : text) (w : World) :
  set_motion env m w = with_log (log w ++ motion_events env m) w.
Proof.
  unfold set_motion, motion_events, px_events.
  destruct (px_present env); cbn [negb]; cbv zeta.
  - repeat case_bool_decide; unfold emit, with_log; cbn [log];
      rewrite <- app_assoc; reflexivity.
  - repeat case_bool_decide; reflexivity.
Qed.

Lemma set_steer_eq (d : text) (w : World) :
  set_steer env d w = with_log (log w ++ steer_events env d) w.
Proof.
  unfold set_steer, steer_events, px_events.
  destruct (px_present env); cbn [negb]; cbv zeta.
  - repeat case_bool_decide; unfold emit, with_log; cbn [log];
      rewrite <- ?app_assoc; reflexivity.
  - repeat case_bool_decide; reflexivity.
Qed.

Lemma hw_safe_stop_eq (w : World) :
  hw_safe_stop env w = with_log (log w ++ safe_stop_events env) w.
Proof.
  unfold hw_safe_stop, safe_stop_events.
  rewrite set_motion_eq, set_steer_eq. unfold with_log; simpl.
  rewrite <- app_assoc. reflexivity.
Qed.

(** *** The dispatcher writes to the log and to the telemetry record *)

Lemma apply_cmd_eq (cmd : text) (w : World) :
  apply_cmd env cmd w
  = with_telem (dispatch_telem (normalize env cmd) (telem w))
      (with_log (log w ++ dispatch_events env (normalize env cmd)) w).
Proof.
  unfold apply_cmd, dispatch_telem, dispatch_events.
  fold (normalize env cmd). generalize (normalize env cmd) as c. intros c.
  repeat case_bool_decide;
    rewrite ?set_motion_eq, ?set_steer_eq;
    unfold upd_telem, emit, with_telem, with_log; simpl;
    rewrite <- ?app_assoc, ?app_nil_r; reflexivity.
Qed.
(** *** Dispatch of single tokens *)

Lemma normalize_token (name : text) :
  forallb is_lower_letter name = true ->
  name <> [] ->
  normalize env name = name.
Proof.
  intros H Hne.
  assert (E : map ascii_lower name = name).
  { clear Hne. induction name as [|c name IH]; [reflexivity|].
    simpl in H. apply andb_true_iff in H as [Hc H].
    simpl. rewrite (IH H). f_equal.
    unfold is_lower_letter in Hc. apply andb_true_iff in Hc as [H1 H2].
    apply N.leb_le in H1, H2. unfold ascii_lower.
    destruct ((65 <=? c) && (c <=? 90)) eqn:E; [|reflexivity].
    apply andb_true_iff in E as [E1 E2]. apply N.leb_le in E1, E2. lia. }
  pose proof (normalize_padded [] name [] name eq_refl eq_refl E Hne H) as P.
  rewrite app_nil_r in P. exact P.
Qed.

(** C3, with the token the dispatcher has: the token of the odometer
    reset is ["resetodo"]; on every telemetry state, dispatching it sets
    the accumulated distance to 0, leaves the direction and the speed as
    they were and calls no actuator. *)
Theorem resetodo_resets_distance (w : World) :
  distance_m (telem (apply_cmd env (lit "resetodo") w)) = 0%float
  /\ direction (telem (apply_cmd env (lit "resetodo") w)) = direction (telem w)
  /\ speed_mps (telem (apply_cmd env (lit "resetodo") w)) = speed_mps (telem w)
  /\ List.filter is_actuator_call (log (apply_cmd env (lit "resetodo") w))
     = List.filter is_actuator_call (log w).
Proof.
  rewrite apply_cmd_eq.
  rewrite (normalize_token (lit "resetodo")) by (reflexivity || discriminate).
  simpl. repeat split.
  rewrite List.filter_app. simpl. apply app_nil_r.
Qed.

(** The set of the code and the set of the specification differ on the
    reset token only. *)
Lemma recognized_spec_recognized (c : text) :
  c <> lit "resetodo" -> c <> lit "reset-odometer" ->
  recognized c = spec_recognized c.
Proof.
  intros H1 H2. unfold recognized, spec_recognized.
  rewrite (bool_decide_eq_false_2 _ H1), (bool_decide_eq_false_2 _ H2).
  reflexivity.
Qed.

(** C5: a command whose normal form is none of the tokens the dispatcher
    has a branch for leaves the telemetry record and everything else as it
    was and calls no actuator: all it does is print the command and the
    warning. *)
Theorem unrecognized_command_frame (cmd : text) (w : World) :
  recognized (normalize env cmd) = false ->
  apply_cmd env cmd w
  = with_log (log w ++ [EvPrint (DCmd (normalize env cmd));
                        EvPrint (DWarnUnknown (normalize env cmd))]) w
  /\ telem (apply_cmd env cmd w) = telem w.
Proof.
  intros H. rewrite apply_cmd_eq.
  unfold recognized in H. rewrite !orb_false_iff in H.
  destruct H as [[[[[[H1 H2] H3] H4] H5] H6] H7].
  unfold dispatch_telem, dispatch_events.
  rewrite H1, H2, H3, H4, H5, H6, H7. simpl.
  split; [destruct w|]; reflexivity.
Qed.

(** C8: whitespace around a token and the case of its letters do not
    matter to the dispatcher, and the three motion tokens call
    [set_motion] with their own name and set the direction to it, with the
    nominal speed 0.55 (positive) for ["forward"] and ["back"] and the
    speed 0 for ["stop"]. *)
Theorem motion_tokens (pre tok post : text) (w : World) :
  forallb is_space pre = true ->
  forallb is_space post = true ->
  let w' := apply_cmd env (pre ++ tok ++ post) w in
  (map ascii_lower tok = lit "forward" ->
     log w' = log w ++ [EvPrint (DCmd (lit "forward"));
                        EvSetMotion (lit "forward")]
                    ++ px_events env (PxForward CRUISE_SPEED)
     /\ direction (telem w') = lit "forward"
     /\ speed_mps (telem w') = 0.55%float
     /\ PrimFloat.ltb 0%float (speed_mps (telem w')) = true)
  /\ (map ascii_lower tok = lit "back" ->
     log w' = log w ++ [EvPrint (DCmd (lit "back"));
                        EvSetMotion (lit "back")]
                    ++ px_events env (PxBackward CRUISE_SPEED)
     /\ direction (telem w') = lit "back"
     /\ speed_mps (telem w') = 0.55%float
     /\ PrimFloat.ltb 0%float (speed_mps (telem w')) = true)
  /\ (map ascii_lower tok = lit "stop" ->
     log w' = log w ++ [EvPrint (DCmd (lit "stop"));
                        EvSetMotion (lit "stop")]
                    ++ px_events env PxStop
     /\ direction (telem w') = lit "stop"
     /\ speed_mps (telem w') = 0%float).
Proof.
  intros Hpre Hpost w'. subst w'. rewrite apply_cmd_eq.
  split; [|split]; intros E;
    rewrite (normalize_padded pre tok post _ Hpre Hpost E)
      by (reflexivity || discriminate);
    repeat split; reflexivity.
Qed.
(** *** Lines of a buffer *)

Lemma find_nl_lt (s : text) (n : nat) :
  find_nl s = Some n -> (n < length s)%nat.
Proof.
  revert n. induction s as [|c s IH]; intros n H; simpl in *; [discriminate|].
  destruct (c =? NL).
  - injection H as <-. lia.
  - destruct (find_nl s) as [m|]; simpl in H; [|discriminate].
    injection H as <-. specialize (IH m eq_refl). lia.
Qed.

Lemma split_lines_no_nl (s : text) :
  find_nl s = None -> split_lines s = ([], s).
Proof.
  induction s as [|c s IH]; intros H; simpl in *; [reflexivity|].
  destruct (c =? NL); [discriminate|].
  destruct (find_nl s); simpl in H; [discriminate|].
  rewrite IH by reflexivity. reflexivity.
Qed.

(** One turn of the loop of [service] takes the first line off. *)
Lemma split_lines_find (s : text) (n : nat) :
  find_nl s = Some n ->
  split_lines s
  = (take n s :: (split_lines (drop (S n) s)).1,
     (split_lines (drop (S n) s)).2).
Proof.
  revert n. induction s as [|c s IH]; intros n H; simpl in H; [discriminate|].
  destruct (c =? NL) eqn:E.
  - injection H as <-. simpl. rewrite E. rewrite drop_0.
    destruct (split_lines s); reflexivity.
  - destruct (find_nl s) as [m|]; simpl in H; [|discriminate].
    injection H as <-.
    change (split_lines (c :: s)) with
      (let '(ls, rest) := split_lines s in
       if c =? NL then ([] :: ls, rest)
       else match ls with
            | [] => ([], c :: rest)
            | l :: ls' => ((c :: l) :: ls', rest)
            end).
    rewrite (IH m eq_refl), E. reflexivity.
Qed.

Lemma split_lines_app (s t : text) :
  split_lines (s ++ t)
  = ((split_lines s).1 ++ (split_lines ((split_lines s).2 ++ t)).1,
     (split_lines ((split_lines s).2 ++ t)).2).
Proof.
  induction s as [|c s IH]; simpl.
  - destruct (split_lines t); reflexivity.
  - rewrite IH. destruct (split_lines s) as [ls r]. simpl.
    destruct (c =? NL) eqn:E; simpl.
    + reflexivity.
    + destruct ls as [|l ls]; simpl.
      * rewrite E. destruct (split_lines (r ++ t)) as [lt rt]. simpl.
        destruct lt; reflexivity.
      * reflexivity.
Qed.

Lemma rest_of_no_nl (s : text) : find_nl (rest_of s) = None.
Proof.
  unfold rest_of. induction s as [|c s IH]; simpl; [reflexivity|].
  destruct (split_lines s) as [ls r]. simpl in IH.
  destruct (c =? NL) eqn:E; simpl; [exact IH|].
  destruct ls; simpl; [|exact IH].
  rewrite E, IH. reflexivity.
Qed.

Lemma cmds_of_app (s t : text) :
  cmds_of (s ++ t) = cmds_of s ++ cmds_of (rest_of s ++ t).
Proof.
  unfold cmds_of, rest_of. rewrite split_lines_app. simpl.
  rewrite map_app, List.filter_app. reflexivity.
Qed.

Lemma rest_of_app (s t : text) :
  rest_of (s ++ t) = rest_of (rest_of s ++ t).
Proof. unfold rest_of. rewrite split_lines_app. reflexivity. Qed.

Lemma cmds_of_no_nl (s : text) : find_nl s = None -> cmds_of s = [].
Proof. intros H. unfold cmds_of. rewrite split_lines_no_nl by exact H. reflexivity. Qed.

Lemma rest_of_id (s : text) : find_nl s = None -> rest_of s = s.
Proof. intros H. unfold rest_of. rewrite split_lines_no_nl by exact H. reflexivity. Qed.

Lemma find_nl_snoc (s : text) (c : N) :
  find_nl s = None -> (c =? NL) = false -> find_nl (s ++ [c]) = None.
Proof.
  intros H Hc. induction s as [|d s IH]; simpl in *.
  - rewrite Hc. reflexivity.
  - destruct (d =? NL); [discriminate|].
    destruct (find_nl s); simpl in H; [discriminate|].
    rewrite IH by reflexivity. reflexivity.
Qed.

(** A newline closes the pending line. *)
Lemma split_lines_nl (s : text) :
  find_nl s = None -> split_lines (s ++ [NL]) = ([s], []).
Proof.
  intros H. induction s as [|d s IH]; simpl in *; [reflexivity|].
  destruct (d =? NL) eqn:E; [discriminate|].
  destruct (find_nl s); simpl in H; [discriminate|].
  rewrite IH by reflexivity. reflexivity.
Qed.

Lemma cmds_of_snoc_nl (s : text) :
  cmds_of (s ++ [NL]) = cmds_of s ++ List.filter nonempty [strip (rest_of s)].
Proof.
  rewrite cmds_of_app. f_equal. unfold cmds_of.
  rewrite split_lines_nl by apply rest_of_no_nl. reflexivity.
Qed.

Lemma rest_of_snoc_nl (s : text) : rest_of (s ++ [NL]) = [].
Proof.
  rewrite rest_of_app. unfold rest_of at 1.
  rewrite split_lines_nl by apply rest_of_no_nl. reflexivity.
Qed.

(** *** A carriage return before the newline is stripped with the line *)

Lemma lstrip_snoc_space (s : text) (c : N) :
  is_space c = true ->
  lstrip (s ++ [c]) = match lstrip s with [] => [] | _ :: _ => lstrip s ++ [c] end.
Proof.
  intros Hc. induction s as [|d s IH]; simpl.
  - rewrite Hc. reflexivity.
  - destruct (is_space d); [exact IH|reflexivity].
Qed.

Lemma rstrip_snoc_space (s : text) (c : N) :
  is_space c = true -> rstrip (s ++ [c]) = rstrip s.
Proof.
  intros Hc. unfold rstrip. rewrite rev_app_distr. simpl. rewrite Hc.
  reflexivity.
Qed.

Lemma strip_snoc_space (s : text) (c : N) :
  is_space c = true -> strip (s ++ [c]) = strip s.
Proof.
  intros Hc. unfold strip. rewrite lstrip_snoc_space by exact Hc.
  destruct (lstrip s) eqn:E; [reflexivity|].
  apply rstrip_snoc_space, Hc.
Qed.

Lemma cmds_of_crlf (b : text) :
  cmds_of (b ++ [CR; NL]) = cmds_of (b ++ [NL]).
Proof.
  change [CR; NL] with ([CR] ++ [NL]). rewrite app_assoc.
  rewrite !cmds_of_snoc_nl.
  rewrite (cmds_of_app b [CR]), (rest_of_app b [CR]).
  assert (H : find_nl (rest_of b ++ [CR]) = None)
    by (apply find_nl_snoc; [apply rest_of_no_nl|reflexivity]).
  rewrite (cmds_of_no_nl _ H), (rest_of_id _ H), app_nil_r.
  rewrite strip_snoc_space by reflexivity. reflexivity.
Qed.

Lemma rest_of_crlf (b : text) :
  rest_of (b ++ [CR; NL]) = rest_of (b ++ [NL]).
Proof.
  change [CR; NL] with ([CR] ++ [NL]). rewrite app_assoc.
  rewrite !rest_of_snoc_nl. reflexivity.
Qed.

(** Replacing CR LF by LF in what is appended to a buffer changes
    neither the commands nor the pending line. *)
Lemma replace_crlf_lines (n : nat) :
  forall (s b : text), (length s <= n)%nat ->
    cmds_of (b ++ replace_crlf s) = cmds_of (b ++ s)
    /\ rest_of (b ++ replace_crlf s) = rest_of (b ++ s).
Proof.
  induction n as [|n IH]; intros s b Hlen.
  - destruct s; [split; reflexivity|simpl in Hlen; lia].
  - destruct s as [|c [|d r]]; try (split; reflexivity).
    simpl in Hlen.
    change (replace_crlf (c :: d :: r)) with
      (if (c =? CR) && (d =? NL) then NL :: replace_crlf r
       else c :: replace_crlf (d :: r)).
    destruct ((c =? CR) && (d =? NL)) eqn:E.
    + apply andb_true_iff in E as [Ec Ed].
      apply N.eqb_eq in Ec, Ed. subst c d.
      destruct (IH r (b ++ [NL])) as [H1 H2]; [lia|].
      rewrite <- !app_assoc in H1, H2. simpl in H1, H2.
      rewrite H1, H2.
      change (b ++ NL :: r) with (b ++ [NL] ++ r).
      change (b ++ CR :: NL :: r) with (b ++ [CR; NL] ++ r).
      rewrite !app_assoc.
      rewrite (cmds_of_app (b ++ [NL])), (cmds_of_app (b ++ [CR; NL])).
      rewrite (rest_of_app (b ++ [NL])), (rest_of_app (b ++ [CR; NL])).
      rewrite cmds_of_crlf, rest_of_crlf. split; reflexivity.
    + destruct (IH (d :: r) (b ++ [c])) as [H1 H2]; [simpl; lia|].
      rewrite <- !app_assoc in H1, H2. simpl in H1, H2.
      split; assumption.
Qed.

Lemma cmds_of_replace_crlf (b s : text) :
  cmds_of (b ++ replace_crlf s) = cmds_of (b ++ s).
Proof. apply (replace_crlf_lines (length s)). lia. Qed.

Lemma rest_of_replace_crlf (b s : text) :
  rest_of (b ++ replace_crlf s) = rest_of (b ++ s).
Proof. apply (replace_crlf_lines (length s)). lia. Qed.
(** *** The loop of [service] *)

Lemma handle_cmd_eq (sock : nat) (a : Addr) (w : World) (cmd : text) :
  handle_cmd env sock a w cmd
  = with_telem (dispatch_telem (normalize env cmd) (telem w))
      (with_n_send (S (n_send w))
         (with_log (log w ++ ack_events sock a cmd (send_ok env (n_send w))
                          ++ dispatch_events env (normalize env cmd)) w)).
Proof.
  unfold handle_cmd, send_ack, ack_events. rewrite apply_cmd_eq.
  destruct (send_ok env (n_send w)); fields;
    rewrite <- ?app_assoc; reflexivity.
Qed.

Lemma fold_handle_eq (sock : nat) (a : Addr) (cmds : list text) (w : World) :
  fold_left (handle_cmd env sock a) cmds w
  = with_telem (served_telem env cmds (telem w))
      (with_n_send (n_send w + length cmds)
         (with_log (log w ++ served_events env sock a (n_send w) cmds) w)).
Proof.
  revert w. induction cmds as [|cmd cmds IH]; intros w;
    cbn [fold_left served_events length].
  - rewrite app_nil_r, Nat.add_0_r. destruct w; reflexivity.
  - rewrite IH, handle_cmd_eq. fields.
    rewrite <- !app_assoc. replace (S (n_send w) + length cmds)%nat
      with (n_send w + S (length cmds))%nat by lia.
    reflexivity.
Qed.

Lemma store_buf_same (sock : nat) (w : World) (st : ConnState) :
  heap w !! sock = Some st -> store_buf sock (buf_in st) w = w.
Proof.
  intros H. unfold store_buf.
  rewrite alter_id.
  - destruct w; reflexivity.
  - intros x Hx. rewrite H in Hx. injection Hx as <-. destruct st; reflexivity.
Qed.

Lemma store_buf_store_buf (sock : nat) (b1 b2 : text) (w : World) :
  store_buf sock b2 (store_buf sock b1 w) = store_buf sock b2 w.
Proof.
  unfold store_buf, with_heap; simpl. f_equal.
  apply map_eq. intros i. rewrite !lookup_alter.
  repeat case_decide; try congruence.
  destruct (heap w !! sock); reflexivity.
Qed.

Lemma fold_handle_store_buf (sock s : nat) (a : Addr) (b : text)
      (cmds : list text) (w : World) :
  fold_left (handle_cmd env sock a) cmds (store_buf s b w)
  = store_buf s b (fold_left (handle_cmd env sock a) cmds w).
Proof. rewrite !fold_handle_eq. reflexivity. Qed.

Lemma heap_store_buf (sock : nat) (b : text) (w : World) (st : ConnState) :
  heap w !! sock = Some st ->
  heap (store_buf sock b w) !! sock = Some (set_buf_in b st).
Proof.
  intros H. unfold store_buf; simpl. rewrite lookup_alter.
  case_decide; [|congruence]. rewrite H. reflexivity.
Qed.

Lemma heap_handle_cmd (sock : nat) (a : Addr) (w : World) (cmd : text) :
  heap (handle_cmd env sock a w cmd) = heap w.
Proof. rewrite handle_cmd_eq. reflexivity. Qed.

Lemma handle_cmd_store_buf (sock s : nat) (a : Addr) (b : text)
      (cmd : text) (w : World) :
  handle_cmd env sock a (store_buf s b w) cmd
  = store_buf s b (handle_cmd env sock a w cmd).
Proof. rewrite !handle_cmd_eq. reflexivity. Qed.

(** One turn of the loop. *)
Lemma service_loop_step (fuel sock : nat) (w : World) (st : ConnState) :
  heap w !! sock = Some st ->
  service_loop env (S fuel) sock w
  = match find_nl (buf_in st) with
    | None => w
    | Some nl =>
        let w1 := store_buf sock (drop (S nl) (buf_in st)) w in
        match strip (take nl (buf_in st)) with
        | [] => service_loop env fuel sock w1
        | c :: cmd =>
            service_loop env fuel sock
              (handle_cmd env sock (addr st) w1 (c :: cmd))
        end
    end.
Proof.
  intros H. cbn [service_loop]. rewrite H.
  destruct (find_nl (buf_in st)); [|reflexivity].
  destruct (strip (take n (buf_in st))); reflexivity.
Qed.

(** With fuel for every code point of the buffer and one more, the loop
    handles the commands of all the complete lines and leaves the pending
    line in the buffer. *)
Lemma service_loop_eq (fuel : nat) :
  forall (sock : nat) (w : World) (st : ConnState),
    heap w !! sock = Some st ->
    (length (buf_in st) < fuel)%nat ->
    service_loop env fuel sock w = served env sock (addr st) (buf_in st) w.
Proof.
  induction fuel as [|fuel IH]; intros sock w st Hst Hlen; [lia|].
  rewrite (service_loop_step fuel sock w st Hst). unfold served.
  destruct (find_nl (buf_in st)) as [nl|] eqn:Hnl.
  - pose proof (find_nl_lt _ _ Hnl) as Hlt.
    pose proof (split_lines_find _ _ Hnl) as Hsplit.
    set (rest := drop (S nl) (buf_in st)) in *.
    assert (Hrest : (length rest < fuel)%nat).
    { subst rest. rewrite length_drop. lia. }
    assert (Hcm : cmds_of (buf_in st)
                  = List.filter nonempty [strip (take nl (buf_in st))]
                    ++ cmds_of rest).
    { unfold cmds_of. rewrite Hsplit. cbn [fst map].
      apply (List.filter_app nonempty [strip (take nl (buf_in st))]). }
    assert (Hre : rest_of (buf_in st) = rest_of rest).
    { unfold rest_of. rewrite Hsplit. reflexivity. }
    rewrite Hcm, Hre, fold_left_app.
    pose proof (heap_store_buf sock rest w st Hst) as Hst1.
    cbv zeta.
    destruct (strip (take nl (buf_in st))) as [|c cmd] eqn:Hcmd;
      cbn [List.filter nonempty fold_left].
    + rewrite (IH sock _ _ Hst1) by exact Hrest. unfold served.
      cbn [buf_in addr set_buf_in].
      rewrite fold_handle_store_buf, store_buf_store_buf. reflexivity.
    + rewrite (IH sock _ (set_buf_in rest st));
        [|rewrite heap_handle_cmd; exact Hst1|exact Hrest].
      unfold served. cbn [buf_in addr set_buf_in].
      rewrite handle_cmd_store_buf, fold_handle_store_buf, store_buf_store_buf.
      reflexivity.
  - rewrite cmds_of_no_nl, rest_of_id by exact Hnl. cbn [fold_left].
    symmetry. apply store_buf_same, Hst.
Qed.

(** The loop leaves through its [break]: no newline is left in the
    buffer. *)
Lemma service_loop_exits (fuel sock : nat) (w : World) (st : ConnState) :
  heap w !! sock = Some st ->
  (length (buf_in st) < fuel)%nat ->
  exists st', heap (service_loop env fuel sock w) !! sock = Some st'
              /\ find_nl (buf_in st') = None.
Proof.
  intros Hst Hlen. rewrite (service_loop_eq fuel sock w st Hst Hlen).
  unfold served. rewrite fold_handle_eq.
  exists (set_buf_in (rest_of (buf_in st)) st). split.
  - apply heap_store_buf. exact Hst.
  - apply rest_of_no_nl.
Qed.

(** More fuel changes nothing. *)
Lemma service_loop_fuel (fuel fuel' sock : nat) (w : World) (st : ConnState) :
  heap w !! sock = Some st ->
  (length (buf_in st) < fuel)%nat ->
  (length (buf_in st) < fuel')%nat ->
  service_loop env fuel sock w = service_loop env fuel' sock w.
Proof.
  intros Hst H1 H2.
  rewrite (service_loop_eq fuel sock w st Hst H1).
  rewrite (service_loop_eq fuel' sock w st Hst H2). reflexivity.
Qed.

(** A read of a non-empty chunk on an open connection. *)
Lemma service_eq (sock : nat) (chunk : list byte) (w : World) (st : ConnState) :
  heap w !! sock = Some st ->
  closed st = false ->
  chunk <> [] ->
  service env sock (RecvBytes chunk) w
  = served env sock (addr st) (buf_in st ++ utf8_decode_ignore chunk)
      (emit (EvPrint (DRx (addr st) (utf8_decode_ignore chunk))) w).
Proof.
  intros Hst Hopen Hne. unfold service. rewrite Hst, Hopen.
  destruct chunk as [|b chunk]; [congruence|].
  set (s := utf8_decode_ignore (b :: chunk)).
  set (w1 := emit (EvPrint (DRx (addr st) s)) w).
  assert (Hst1 : heap w1 !! sock = Some st) by exact Hst.
  pose proof (heap_store_buf sock (buf_in st ++ replace_crlf s) w1 st Hst1) as H2.
  rewrite (service_loop_eq _ sock _ _ H2) by (simpl; lia).
  unfold served. simpl.
  rewrite cmds_of_replace_crlf, rest_of_replace_crlf.
  rewrite fold_handle_store_buf, store_buf_store_buf. reflexivity.
Qed.
Lemma served_eq (sock : nat) (a : Addr) (buf : text) (w : World) :
  served env sock a buf w
  = with_heap (alter (set_buf_in (rest_of buf)) sock (heap w))
      (with_telem (served_telem env (cmds_of buf) (telem w))
         (with_n_send (n_send w + length (cmds_of buf))
            (with_log (log w ++ served_events env sock a (n_send w)
                                  (cmds_of buf)) w))).
Proof. unfold served. rewrite fold_handle_eq. reflexivity. Qed.

(** C6: in a read on an open connection, every non-empty stripped line
    taken from the buffer has its ACK, echoing it, written to this
    connection before it is dispatched, and it is dispatched whether the
    write returned or raised: after the print of the raw read, the log
    holds for each command in turn the write of the ACK, the diagnostic if
    the write raised, and then the events of [apply_cmd]; the telemetry
    record is the one all these dispatches leave. *)
Theorem ack_precedes_dispatch (sock : nat) (chunk : list byte) (w : World)
        (st : ConnState) :
  heap w !! sock = Some st ->
  closed st = false ->
  chunk <> [] ->
  let cmds := cmds_of (buf_in st ++ replace_crlf (utf8_decode_ignore chunk)) in
  let w' := service env sock (RecvBytes chunk) w in
  log w' = log w ++ EvPrint (DRx (addr st) (utf8_decode_ignore chunk))
                 :: served_events env sock (addr st) (n_send w) cmds
  /\ telem w' = served_telem env cmds (telem w)
  /\ (forall k cmd rest,
        served_events env sock (addr st) k (cmd :: rest)
        = EvSend sock (PText (lit "ACK:" ++ cmd ++ [NL])) (send_ok env k)
          :: (if send_ok env k then [] else [EvPrint (DAckErr (addr st))])
          ++ dispatch_events env (normalize env cmd)
          ++ served_events env sock (addr st) (S k) rest)
  /\ (forall cmd, In cmd cmds -> cmd <> []).
Proof.
  intros Hst Hopen Hne cmds w'. subst cmds w'.
  rewrite (service_eq sock chunk w st Hst Hopen Hne), served_eq.
  rewrite cmds_of_replace_crlf. fields.
  repeat split.
  - rewrite <- app_assoc. reflexivity.
  - intros cmd Hin. unfold cmds_of in Hin. apply List.filter_In in Hin as [_ H].
    destruct cmd; [discriminate|congruence].
Qed.

(** *** Reads and the log without its raw lines *)

Lemma filter_keeps {A} (f : A -> bool) (l : list A) :
  forallb f l = true -> List.filter f l = l.
Proof.
  induction l as [|x l IH]; simpl; [reflexivity|].
  intros H. apply andb_true_iff in H as [Hx Hl]. rewrite Hx, IH by exact Hl.
  reflexivity.
Qed.

Lemma quiet_app (l1 l2 : list Event) : quiet l1 -> quiet l2 -> quiet (l1 ++ l2).
Proof. unfold quiet. intros H1 H2. rewrite forallb_app, H1, H2. reflexivity. Qed.

Lemma quiet_px (c : PxCall) : quiet (px_events env c).
Proof. unfold px_events. destruct (px_present env); reflexivity. Qed.

Lemma quiet_motion (m : text) : quiet (motion_events env m).
Proof.
  unfold motion_events. change (quiet ([EvSetMotion m] ++
    (let m0 := py_lower env m in
     if bool_decide (m0 = lit "forward") then px_events env (PxForward CRUISE_SPEED)
     else if bool_decide (m0 = lit "back") then px_events env (PxBackward CRUISE_SPEED)
     else px_events env PxStop))).
  apply quiet_app; [reflexivity|]. cbv zeta.
  repeat case_bool_decide; apply quiet_px.
Qed.

Lemma quiet_steer (d : text) : quiet (steer_events env d).
Proof.
  unfold steer_events. change (quiet ([EvSetSteer d] ++
    (let d1 := py_lower env d in
     if bool_decide (d1 = lit "left") then px_events env (PxServo (- DIR_MAX_ANGLE))
     else if bool_decide (d1 = lit "right") then px_events env (PxServo DIR_MAX_ANGLE)
     else if bool_decide (d1 = lit "center") then px_events env (PxServo 0)
     else []))).
  apply quiet_app; [reflexivity|]. cbv zeta.
  repeat case_bool_decide; (apply quiet_px || reflexivity).
Qed.

Lemma quiet_dispatch (c : text) : quiet (dispatch_events env c).
Proof.
  unfold dispatch_events.
  match goal with |- quiet (?e :: ?l) => change (quiet ([e] ++ l)) end.
  apply quiet_app; [reflexivity|].
  repeat case_bool_decide;
    (apply quiet_motion || apply quiet_steer || reflexivity).
Qed.

Lemma quiet_ack (sock : nat) (a : Addr) (cmd : text) (ok : bool) :
  quiet (ack_events sock a cmd ok).
Proof. destruct ok; reflexivity. Qed.

Lemma quiet_served (sock : nat) (a : Addr) (cmds : list text) :
  forall k, quiet (served_events env sock a k cmds).
Proof.
  induction cmds as [|cmd cmds IH]; intros k; cbn [served_events].
  - reflexivity.
  - repeat apply quiet_app; auto using quiet_ack, quiet_dispatch.
Qed.

Lemma without_rx_served (sock : nat) (a : Addr) (buf : text) (w : World) :
  without_rx (served env sock a buf w) = served env sock a buf (without_rx w).
Proof.
  rewrite !served_eq. unfold without_rx. fields.
  rewrite List.filter_app, (filter_keeps _ _ (quiet_served sock a _ _)).
  reflexivity.
Qed.

Lemma without_rx_emit_rx (a : Addr) (s : text) (w : World) :
  without_rx (emit (EvPrint (DRx a s)) w) = without_rx w.
Proof.
  unfold without_rx. fields. rewrite List.filter_app. cbn [List.filter is_rx negb].
  rewrite app_nil_r. reflexivity.
Qed.

Lemma served_compose (sock : nat) (a : Addr) (x t : text) (w : World) :
  served env sock a (rest_of x ++ t) (served env sock a x w)
  = served env sock a (x ++ t) w.
Proof.
  unfold served. rewrite (cmds_of_app x t), (rest_of_app x t), fold_left_app.
  rewrite fold_handle_store_buf, store_buf_store_buf. reflexivity.
Qed.

Lemma heap_served (sock : nat) (a : Addr) (buf : text) (w : World)
      (st : ConnState) :
  heap w !! sock = Some st ->
  heap (served env sock a buf w) !! sock = Some (set_buf_in (rest_of buf) st).
Proof.
  intros H. rewrite served_eq. fields. rewrite lookup_alter.
  case_decide; [|congruence]. rewrite H. reflexivity.
Qed.

Lemma served_no_nl (sock : nat) (w : World) (st : ConnState) :
  heap w !! sock = Some st ->
  find_nl (buf_in st) = None ->
  served env sock (addr st) (buf_in st) w = w.
Proof.
  intros Hst Hnl. unfold served.
  rewrite cmds_of_no_nl, rest_of_id by exact Hnl. cbn [fold_left].
  apply store_buf_same, Hst.
Qed.

(** Successive reads of non-empty chunks on an open connection serve the
    buffer followed by the texts of the chunks. *)
Lemma feed_eq (sock : nat) (chunks : list (list byte)) :
  forall (w : World) (st : ConnState),
    heap w !! sock = Some st ->
    closed st = false ->
    Forall (fun c => c <> []) chunks ->
    chunks <> [] \/ find_nl (buf_in st) = None ->
    without_rx (feed env sock chunks w)
    = served env sock (addr st)
        (buf_in st ++ concat (map utf8_decode_ignore chunks)) (without_rx w).
Proof.
  induction chunks as [|c cs IH]; intros w st Hst Hopen Hne Hor.
  - destruct Hor as [Hor|Hnl]; [congruence|].
    cbn [feed map concat]. rewrite app_nil_r.
    symmetry. apply served_no_nl; assumption.
  - apply Forall_cons in Hne as [Hc Hcs]. cbn [feed map concat].
    rewrite (service_eq sock c w st Hst Hopen Hc).
    set (w0 := emit (EvPrint (DRx (addr st) (utf8_decode_ignore c))) w).
    set (x := buf_in st ++ utf8_decode_ignore c).
    assert (Hst1 : heap (served env sock (addr st) x w0) !! sock
                   = Some (set_buf_in (rest_of x) st))
      by (apply heap_served; exact Hst).
    rewrite (IH _ _ Hst1 Hopen Hcs) by (right; apply rest_of_no_nl).
    cbn [addr buf_in set_buf_in].
    rewrite without_rx_served. subst w0. rewrite without_rx_emit_rx.
    rewrite served_compose. subst x. rewrite <- app_assoc. reflexivity.
Qed.

(** C2, for streams that decode chunk by chunk: when the chunks of a
    read sequence are not empty and decode one by one to the text of the
    whole stream (no chunk ends inside a multi-byte sequence; every ASCII
    stream is such), reading them one after the other on an open
    connection leaves the same world as one read of the whole stream, the
    prints of the raw reads apart: the same ACKs, the same dispatches in
    the same order, the same telemetry record and the same pending line.
    A CR LF cut between two reads is one of these cases. *)
Theorem framing_read_boundary_independent
        (sock : nat) (chunks : list (list byte)) (w : World) (st : ConnState) :
  heap w !! sock = Some st ->
  closed st = false ->
  chunks <> [] ->
  Forall (fun c => c <> []) chunks ->
  utf8_decode_ignore (concat chunks) = concat (map utf8_decode_ignore chunks) ->
  without_rx (feed env sock chunks w)
  = without_rx (service env sock (RecvBytes (concat chunks)) w).
Proof.
  intros Hst Hopen Hne Hall Hdec.
  rewrite (feed_eq sock chunks w st Hst Hopen Hall) by (left; exact Hne).
  assert (Hcat : concat chunks <> []).
  { destruct chunks as [|c cs]; [congruence|].
    apply Forall_cons in Hall as [Hc _]. cbn [concat].
    destruct c; [congruence|discriminate]. }
  rewrite (service_eq sock _ w st Hst Hopen Hcat).
  rewrite without_rx_served, without_rx_emit_rx, Hdec. reflexivity.
Qed.

(** ASCII bytes decode to themselves, so ASCII streams decode chunk by
    chunk. *)
Lemma utf8_decode_ignore_ascii (bs : list byte) :
  forallb (fun b => Byte.to_N b <? 128) bs = true ->
  utf8_decode_ignore bs = map Byte.to_N bs.
Proof.
  induction bs as [|b bs IH]; intros H; [reflexivity|].
  cbn [forallb] in H. apply andb_true_iff in H as [Hb Hbs].
  cbn [utf8_decode_ignore map]. cbv zeta. rewrite Hb, IH by exact Hbs.
  reflexivity.
Qed.

Lemma utf8_decode_ignore_ascii_chunks (chunks : list (list byte)) :
  forallb (fun b => Byte.to_N b <? 128) (concat chunks) = true ->
  utf8_decode_ignore (concat chunks) = concat (map utf8_decode_ignore chunks).
Proof.
  induction chunks as [|c cs IH]; intros H; [reflexivity|].
  cbn [concat map] in *. rewrite forallb_app in H.
  apply andb_true_iff in H as [Hc Hcs].
  rewrite <- IH by exact Hcs.
  rewrite !utf8_decode_ignore_ascii; rewrite ?forallb_app, ?Hc, ?Hcs; try reflexivity.
  apply map_app.
Qed.
(** *** Teardown *)

Lemma close_conn_open (sock : nat) (w : World) (st : ConnState) :
  heap w !! sock = Some st ->
  closed st = false ->
  close_conn env sock w
  = with_log (log w ++ [EvUnregister sock; EvClose sock] ++ safe_stop_events env)
      (with_sel_map (filter (fun k => k <> KConn sock) (sel_map w))
         (with_heap (<[sock := set_closed true st]> (heap w)) w)).
Proof.
  intros Hst Hopen. unfold close_conn, unregister. rewrite Hst, Hopen.
  rewrite hw_safe_stop_eq. fields. rewrite <- !app_assoc. reflexivity.
Qed.

Lemma close_conn_closed (sock : nat) (w : World) (st : ConnState) :
  heap w !! sock = Some st -> closed st = true -> close_conn env sock w = w.
Proof. intros Hst Hc. unfold close_conn. rewrite Hst, Hc. reflexivity. Qed.

Lemma safe_stop_events_eq :
  safe_stop_events env
  = [EvSetMotion (lit "stop")] ++ px_events env PxStop
    ++ [EvSetSteer (lit "center")] ++ px_events env (PxServo 0).
Proof. reflexivity. Qed.

Lemma close_conn_marks_closed (sock : nat) (w : World) (st : ConnState) :
  heap w !! sock = Some st ->
  closed st = false ->
  heap (close_conn env sock w) !! sock = Some (set_closed true st).
Proof.
  intros Hst Hopen. rewrite (close_conn_open sock w st Hst Hopen). fields.
  apply lookup_insert_eq.
Qed.

(** A second teardown is a no-op on any world. *)
Lemma close_conn_idempotent (sock : nat) (w : World) :
  close_conn env sock (close_conn env sock w) = close_conn env sock w.
Proof.
  destruct (heap w !! sock) as [st|] eqn:Hst.
  - destruct (closed st) eqn:Hc.
    + rewrite (close_conn_closed sock w st Hst Hc).
      apply (close_conn_closed sock w st Hst Hc).
    + apply (close_conn_closed sock _ _ (close_conn_marks_closed sock w st Hst Hc)).
      reflexivity.
  - unfold close_conn at 2. rewrite Hst. unfold close_conn. rewrite Hst.
    reflexivity.
Qed.

(** C4: the teardown of an open connection, whatever the telemetry record
    says, unregisters and closes the socket and calls the safe stop of the
    actuator ([set_motion("stop")], then [set_steer("center")]); it marks
    the connection closed, and a teardown of a closed connection does
    nothing at all: no state changes and no safe stop is added. *)
Theorem teardown_safe_stop_idempotent (sock : nat) (w : World) (st : ConnState) :
  heap w !! sock = Some st ->
  closed st = false ->
  let w1 := close_conn env sock w in
  log w1 = log w ++ [EvUnregister sock; EvClose sock; EvSetMotion (lit "stop")]
                 ++ px_events env PxStop
                 ++ [EvSetSteer (lit "center")]
                 ++ px_events env (PxServo 0)
  /\ heap w1 !! sock = Some (set_closed true st)
  /\ ~ In (KConn sock) (sel_map w1)
  /\ close_conn env sock w1 = w1
  /\ close_conn env sock (close_conn env sock w1) = w1.
Proof.
  intros Hst Hopen w1.
  pose proof (close_conn_marks_closed sock w st Hst Hopen) as Hheap.
  assert (Hidem : close_conn env sock w1 = w1)
    by (apply (close_conn_closed sock w1 _ Hheap); reflexivity).
  repeat split; try assumption.
  - subst w1. rewrite (close_conn_open sock w st Hst Hopen). fields.
    rewrite safe_stop_events_eq. reflexivity.
  - subst w1. rewrite (close_conn_open sock w st Hst Hopen). fields.
    rewrite <- list_elem_of_In, list_elem_of_filter. tauto.
  - rewrite Hidem. exact Hidem.
Qed.
(** *** Telemetry pushes *)

Lemma telemetry_tick_eq (w : World) :
  telemetry_tick env w
  = (PJsonLine (ticked env w),
     with_telem (ticked env w)
       (with_n_temp (S (n_temp w))
          (with_last_telem_time (clock env (n_clock w))
             (with_n_clock (S (n_clock w)) w)))).
Proof. reflexivity. Qed.

Lemma push_not_due (sock : nat) (hz period : float) (w : World)
      (st : ConnState) :
  heap w !! sock = Some st ->
  py_fdiv 1%float hz = Some period ->
  PrimFloat.leb period (clock env (n_clock w) - last_push st)%float = false ->
  push_telem_if_due env sock hz w = Some (with_n_clock (S (n_clock w)) w).
Proof.
  intros Hst Hp Hdue. unfold push_telem_if_due. rewrite Hst, Hp.
  cbv zeta. rewrite Hdue. reflexivity.
Qed.

Lemma push_due (sock : nat) (hz period : float) (w : World) (st : ConnState) :
  heap w !! sock = Some st ->
  closed st = false ->
  py_fdiv 1%float hz = Some period ->
  PrimFloat.leb period (clock env (n_clock w) - last_push st)%float = true ->
  push_telem_if_due env sock hz w
  = Some (if send_ok env (n_send w)
          then with_heap (alter (set_last_push (clock env (n_clock w))) sock
                            (heap w))
                 (pushed env sock true w)
          else close_conn env sock
                 (emit (EvPrint (DSendErr (addr st))) (pushed env sock false w))).
Proof.
  intros Hst Hopen Hp Hdue. unfold push_telem_if_due. rewrite Hst, Hp.
  cbv zeta. rewrite Hdue, telemetry_tick_eq, Hopen. cbn [negb andb].
  fields. destruct (send_ok env (n_send w)); reflexivity.
Qed.

Lemma service_keeps_open (sock : nat) (chunk : list byte) (w : World)
      (st : ConnState) :
  heap w !! sock = Some st ->
  closed st = false ->
  chunk <> [] ->
  (exists st', heap (service env sock (RecvBytes chunk) w) !! sock = Some st'
               /\ closed st' = false)
  /\ sel_map (service env sock (RecvBytes chunk) w) = sel_map w.
Proof.
  intros Hst Hopen Hne. rewrite (service_eq sock chunk w st Hst Hopen Hne).
  split.
  - eexists. split; [apply heap_served; exact Hst|exact Hopen].
  - rewrite served_eq. reflexivity.
Qed.

(** C7, write by write: a write of a telemetry line that raises is fatal
    to its connection: the failure is printed and the connection is torn
    down (unregistered, closed, marked closed, safe stop). A write of an
    ACK that raises is not: whatever the writes of a read do, the
    connection stays open and registered. *)
Theorem write_failures (sock : nat) (w : World) (st : ConnState) :
  heap w !! sock = Some st ->
  closed st = false ->
  (forall hz period,
      py_fdiv 1%float hz = Some period ->
      PrimFloat.leb period (clock env (n_clock w) - last_push st)%float = true ->
      send_ok env (n_send w) = false ->
      exists w' t,
        push_telem_if_due env sock hz w = Some w'
        /\ log w' = log w ++ [EvSend sock (PJsonLine t) false;
                              EvPrint (DSendErr (addr st));
                              EvUnregister sock; EvClose sock]
                          ++ safe_stop_events env
        /\ heap w' !! sock = Some (set_closed true st)
        /\ ~ In (KConn sock) (sel_map w'))
  /\ (forall chunk,
        chunk <> [] ->
        conn_open (service env sock (RecvBytes chunk) w) sock
        /\ sel_map (service env sock (RecvBytes chunk) w) = sel_map w).
Proof.
  intros Hst Hopen. split.
  - intros hz period Hp Hdue Hfail.
    rewrite (push_due sock hz period w st Hst Hopen Hp Hdue), Hfail.
    set (w1 := emit (EvPrint (DSendErr (addr st))) (pushed env sock false w)).
    assert (Hst1 : heap w1 !! sock = Some st) by exact Hst.
    eexists. eexists. split; [reflexivity|].
    rewrite (close_conn_open sock w1 st Hst1 Hopen).
    split; [|split].
    + subst w1. unfold pushed. fields. rewrite <- !app_assoc. reflexivity.
    + fields. apply lookup_insert_eq.
    + fields. rewrite <- list_elem_of_In, list_elem_of_filter. tauto.
  - intros chunk Hne. unfold conn_open.
    apply (service_keeps_open sock chunk w st Hst Hopen Hne).
Qed.
(** *** What leaves the odometer alone *)

Lemma dispatched_app (l1 l2 : list Event) :
  dispatched (l1 ++ l2) = dispatched l1 ++ dispatched l2.
Proof. apply flat_map_app. Qed.

Lemma dispatched_px (c : PxCall) : dispatched (px_events env c) = [].
Proof. unfold px_events. destruct (px_present env); reflexivity. Qed.

Lemma dispatched_motion (m : text) : dispatched (motion_events env m) = [].
Proof.
  unfold motion_events. cbn [dispatched flat_map app]. cbv zeta.
  repeat case_bool_decide; apply dispatched_px.
Qed.

Lemma dispatched_steer (d : text) : dispatched (steer_events env d) = [].
Proof.
  unfold steer_events. cbn [dispatched flat_map app]. cbv zeta.
  repeat case_bool_decide; (apply dispatched_px || reflexivity).
Qed.

Lemma dispatched_dispatch_events (c : text) :
  dispatched (dispatch_events env c) = [c].
Proof.
  unfold dispatch_events. cbn [dispatched flat_map app]. f_equal.
  repeat case_bool_decide;
    (apply dispatched_motion || apply dispatched_steer || reflexivity).
Qed.

Lemma dispatched_ack (sock : nat) (a : Addr) (cmd : text) (ok : bool) :
  dispatched (ack_events sock a cmd ok) = [].
Proof. destruct ok; reflexivity. Qed.

Lemma dispatched_served (sock : nat) (a : Addr) (cmds : list text) :
  forall k, dispatched (served_events env sock a k cmds)
            = map (normalize env) cmds.
Proof.
  induction cmds as [|cmd cmds IH]; intros k; cbn [served_events map].
  - reflexivity.
  - rewrite !dispatched_app, dispatched_ack, dispatched_dispatch_events, IH.
    reflexivity.
Qed.

Lemma dispatch_telem_distance (c : text) (t : Telem) :
  distance_m (dispatch_telem c t) = distance_m t
  \/ (c = lit "resetodo" /\ distance_m (dispatch_telem c t) = 0%float).
Proof.
  unfold dispatch_telem.
  repeat case_bool_decide; try (left; reflexivity).
  right. split; [assumption|reflexivity].
Qed.

Lemma served_telem_distance (cmds : list text) :
  forall t,
    distance_m (served_telem env cmds t) = distance_m t
    \/ (In (lit "resetodo") (map (normalize env) cmds)
        /\ distance_m (served_telem env cmds t) = 0%float).
Proof.
  induction cmds as [|cmd cmds IH]; intros t.
  - left. reflexivity.
  - unfold served_telem. cbn [fold_left map].
    fold (served_telem env cmds (dispatch_telem (normalize env cmd) t)).
    destruct (IH (dispatch_telem (normalize env cmd) t)) as [H|[H1 H2]].
    + rewrite H.
      destruct (dispatch_telem_distance (normalize env cmd) t) as [E|[E1 E2]].
      * left. exact E.
      * right. split; [left; exact E1|exact E2].
    + right. split; [right; exact H1|exact H2].
Qed.

Lemma odometer_kept_refl (w : World) : odometer_kept w w.
Proof.
  split; [reflexivity|]. exists []. rewrite app_nil_r.
  split; [reflexivity|left; reflexivity].
Qed.

Lemma odometer_kept_trans (w1 w2 w3 : World) :
  odometer_kept w1 w2 -> odometer_kept w2 w3 -> odometer_kept w1 w3.
Proof.
  intros [T1 [e1 [L1 D1]]] [T2 [e2 [L2 D2]]].
  split; [congruence|]. exists (e1 ++ e2).
  split; [rewrite L2, L1, app_assoc; reflexivity|].
  rewrite dispatched_app.
  destruct D2 as [D2|[I2 D2]].
  - destruct D1 as [D1|[I1 D1]].
    + left. congruence.
    + right. split; [apply in_or_app; left; exact I1|congruence].
  - right. split; [apply in_or_app; right; exact I2|exact D2].
Qed.

(** Events that dispatch nothing, with the telemetry untouched. *)
Lemma odometer_kept_quiet (w w' : World) (evs : list Event) :
  last_telem_time w' = last_telem_time w ->
  telem w' = telem w ->
  log w' = log w ++ evs ->
  odometer_kept w w'.
Proof.
  intros T E L. split; [exact T|]. exists evs.
  split; [exact L|left; rewrite E; reflexivity].
Qed.

Lemma close_conn_kept (sock : nat) (w : World) :
  odometer_kept w (close_conn env sock w).
Proof.
  destruct (heap w !! sock) as [st|] eqn:Hst.
  - destruct (closed st) eqn:Hc.
    + rewrite (close_conn_closed sock w st Hst Hc). apply odometer_kept_refl.
    + rewrite (close_conn_open sock w st Hst Hc).
      eapply odometer_kept_quiet; reflexivity.
  - unfold close_conn. rewrite Hst. apply odometer_kept_refl.
Qed.

Lemma emit_kept (e : Event) (w : World) :
  dispatched [e] = [] -> odometer_kept w (emit e w).
Proof. intros _. eapply odometer_kept_quiet; reflexivity. Qed.

Lemma accept_kept (a : Addr) (w : World) : odometer_kept w (accept a w).
Proof. eapply odometer_kept_quiet; reflexivity. Qed.

Lemma service_kept (sock : nat) (r : RecvResult) (w : World) :
  odometer_kept w (service env sock r w).
Proof.
  assert (Hfail : forall a, odometer_kept w
            (close_conn env sock (emit (EvPrint (DDisconnected a)) w))).
  { intros a. eapply odometer_kept_trans; [|apply close_conn_kept].
    apply emit_kept. reflexivity. }
  destruct (heap w !! sock) as [st|] eqn:Hst.
  - destruct (closed st) eqn:Hc.
    + unfold service. rewrite Hst, Hc. apply Hfail.
    + destruct r as [chunk| |].
      * destruct chunk as [|b chunk].
        { unfold service. rewrite Hst, Hc. apply Hfail. }
        rewrite (service_eq sock (b :: chunk) w st Hst Hc) by discriminate.
        rewrite served_eq. split; [reflexivity|].
        eexists. fields. split; [rewrite <- app_assoc; reflexivity|].
        change (?e :: ?l) with ([e] ++ l).
        rewrite dispatched_app, dispatched_served.
        apply served_telem_distance.
      * unfold service. rewrite Hst, Hc. apply odometer_kept_refl.
      * unfold service. rewrite Hst, Hc. apply Hfail.
  - unfold service. rewrite Hst. apply odometer_kept_refl.
Qed.

Lemma service_phase_kept (ready : list ReadyEv) :
  forall w w1, service_phase env ready w = Some w1 -> odometer_kept w w1.
Proof.
  induction ready as [|ev ready IH]; intros w w1 H; cbn [service_phase] in H.
  - injection H as <-. apply odometer_kept_refl.
  - destruct ev as [[a|]|sock r]; [| discriminate |].
    + eapply odometer_kept_trans; [apply accept_kept|apply IH, H].
    + eapply odometer_kept_trans; [apply service_kept|apply IH, H].
Qed.

(** A push phase in which no push is due only reads the clock. *)
Lemma push_phase_none_due (socks : list nat) (w : World) :
  forall n,
    none_due env socks 3%float w n = true ->
    exists n', (n <= n')%nat
      /\ push_phase env socks 3%float (with_n_clock n w)
         = Some (with_n_clock n' w).
Proof.
  induction socks as [|sock socks IH]; intros n Hnd.
  - exists n. split; [lia|reflexivity].
  - cbn [push_phase]. cbn [none_due] in Hnd.
    destruct (heap w !! sock) as [st|] eqn:Hst.
    + change (py_fdiv 1%float 3%float) with (Some (1 / 3)%float) in Hnd.
      apply andb_true_iff in Hnd as [Hd Hnd].
      apply negb_true_iff in Hd.
      rewrite (push_not_due sock 3%float (1 / 3)%float (with_n_clock n w) st
                 Hst eq_refl Hd).
      cbn [n_clock with_n_clock].
      destruct (IH (S n) Hnd) as [n' [Hle Heq]].
      exists n'. split; [lia|exact Heq].
    + unfold push_telem_if_due. cbn [heap with_n_clock]. rewrite Hst.
      destruct (IH n Hnd) as [n' [Hle Heq]].
      exists n'. split; [lia|exact Heq].
Qed.

Lemma with_n_clock_same (w : World) : with_n_clock (n_clock w) w = w.
Proof. destruct w; reflexivity. Qed.

(** C9: in a turn of the loop in which no registered connection is due a
    push when its turn comes, at the reading of the clock that its own
    check makes, the time of the last sample is what it was, and so is
    the accumulated distance, whatever the speed, unless the turn
    dispatched a ["resetodo"], which leaves it at 0; the turn ends
    normally. With no client connected this is every turn: [none_due] of
    an empty snapshot is [true]. *)
Theorem odometer_moves_only_on_push (ready : list ReadyEv) (w w1 : World) :
  service_phase env ready w = Some w1 ->
  none_due env (conn_socks (sel_map w1)) 3%float w1 (n_clock w1) = true ->
  exists w', heartbeat env ready w = Some w'
             /\ odometer_kept w w'
             /\ telem w' = telem w1.
Proof.
  intros Hsp Hnd. unfold heartbeat. rewrite Hsp.
  destruct (push_phase_none_due _ w1 (n_clock w1) Hnd) as [n' [_ Heq]].
  rewrite with_n_clock_same in Heq. rewrite Heq.
  eexists. split; [reflexivity|]. split; [|reflexivity].
  eapply odometer_kept_trans; [apply (service_phase_kept ready w w1 Hsp)|].
  eapply odometer_kept_quiet; try reflexivity.
  cbn [log with_n_clock]. symmetry. apply app_nil_r.
Qed.

(** With the listening socket alone in the selector and nothing ready, a
    turn of the loop changes nothing. *)
Lemma heartbeat_idle_no_clients (w : World) :
  conn_socks (sel_map w) = [] -> heartbeat env [] w = Some w.
Proof. intros H. unfold heartbeat. cbn [service_phase]. rewrite H. reflexivity. Qed.
(** *** What a handler for one connection leaves of another *)

Lemma keeps_conn_refl (s : nat) (w : World) : keeps_conn s w w.
Proof.
  split; [exists []; symmetry; apply app_nil_r|].
  split; [reflexivity|]. split; [tauto|lia].
Qed.

Lemma keeps_conn_trans (s : nat) (w1 w2 w3 : World) :
  keeps_conn s w1 w2 -> keeps_conn s w2 w3 -> keeps_conn s w1 w3.
Proof.
  intros [[e1 L1] [H1 [R1 N1]]] [[e2 L2] [H2 [R2 N2]]].
  split; [exists (e1 ++ e2); rewrite L2, L1, app_assoc; reflexivity|].
  split; [congruence|]. split; [tauto|lia].
Qed.

Lemma close_conn_keeps (s sock : nat) (w : World) :
  s <> sock -> keeps_conn s w (close_conn env sock w).
Proof.
  intros Hne.
  destruct (heap w !! sock) as [st|] eqn:Hst.
  - destruct (closed st) eqn:Hc.
    + rewrite (close_conn_closed sock w st Hst Hc). apply keeps_conn_refl.
    + rewrite (close_conn_open sock w st Hst Hc). unfold keeps_conn. fields.
      split; [eexists; reflexivity|].
      split; [apply lookup_insert_ne; congruence|].
      split; [|lia].
      intros Hin. rewrite <- list_elem_of_In, list_elem_of_filter.
      split; [congruence|apply list_elem_of_In, Hin].
  - unfold close_conn. rewrite Hst. apply keeps_conn_refl.
Qed.

Lemma emit_keeps (s : nat) (e : Event) (w : World) : keeps_conn s w (emit e w).
Proof.
  unfold keeps_conn. fields. split; [eexists; reflexivity|].
  split; [reflexivity|]. split; [tauto|lia].
Qed.

Lemma service_keeps (s sock : nat) (r : RecvResult) (w : World) :
  s <> sock -> keeps_conn s w (service env sock r w).
Proof.
  intros Hne.
  assert (Hfail : forall a, keeps_conn s w
            (close_conn env sock (emit (EvPrint (DDisconnected a)) w))).
  { intros a. eapply keeps_conn_trans; [apply emit_keeps|].
    apply close_conn_keeps, Hne. }
  destruct (heap w !! sock) as [st|] eqn:Hst.
  - destruct (closed st) eqn:Hc.
    + unfold service. rewrite Hst, Hc. apply Hfail.
    + destruct r as [chunk| |].
      * destruct chunk as [|b chunk].
        { unfold service. rewrite Hst, Hc. apply Hfail. }
        rewrite (service_eq sock (b :: chunk) w st Hst Hc) by discriminate.
        rewrite served_eq. unfold keeps_conn. fields.
        split; [eexists; rewrite <- app_assoc; reflexivity|].
        split; [apply lookup_alter_ne; congruence|].
        split; [tauto|lia].
      * unfold service. rewrite Hst, Hc. apply keeps_conn_refl.
      * unfold service. rewrite Hst, Hc. apply Hfail.
  - unfold service. rewrite Hst. apply keeps_conn_refl.
Qed.

Lemma accept_keeps (s : nat) (a : Addr) (w : World) :
  (s < next_sock w)%nat -> keeps_conn s w (accept a w).
Proof.
  intros Hlt. unfold keeps_conn, accept. fields.
  split; [eexists; reflexivity|].
  split; [apply lookup_insert_ne; lia|].
  split; [|lia].
  intros Hin. apply in_or_app. left. exact Hin.
Qed.


(** A push returns whenever the division does, and leaves the other
    connections as they were. *)
Lemma push_keeps (s sock : nat) (hz period : float) (w : World) :
  py_fdiv 1%float hz = Some period ->
  exists w', push_telem_if_due env sock hz w = Some w'
             /\ (exists evs, log w' = log w ++ evs)
             /\ (s <> sock -> heap w' !! s = heap w !! s).
Proof.
  intros Hp. unfold push_telem_if_due.
  destruct (heap w !! sock) as [st|] eqn:Hst.
  - rewrite Hp. cbv zeta.
    destruct (PrimFloat.leb period (clock env (n_clock w) - last_push st)%float).
    + rewrite telemetry_tick_eq. fields.
      destruct (negb (closed st) && send_ok env (n_send w)).
      * eexists. split; [reflexivity|]. fields.
        split; [eexists; reflexivity|].
        intros Hne. apply lookup_alter_ne. congruence.
      * eexists. split; [reflexivity|].
        match goal with |- context [close_conn env sock ?x] => set (w1 := x) end.
        split.
        -- destruct (fun H => close_conn_keeps (S sock) sock w1 H) as [[e1 L1] _];
             [lia|].
           rewrite L1. subst w1. fields. eexists.
           rewrite <- !app_assoc. reflexivity.
        -- intros Hne.
           destruct (close_conn_keeps s sock w1 Hne) as [_ [H1 _]].
           rewrite H1. reflexivity.
    + eexists. split; [reflexivity|]. fields.
      split; [exists []; symmetry; apply app_nil_r|reflexivity].
  - eexists. split; [reflexivity|].
    split; [exists []; symmetry; apply app_nil_r|reflexivity].
Qed.

Lemma push_phase_returns (socks : list nat) (hz period : float) :
  py_fdiv 1%float hz = Some period ->
  forall w, exists w', push_phase env socks hz w = Some w'
                       /\ exists evs, log w' = log w ++ evs.
Proof.
  intros Hp. induction socks as [|sock socks IH]; intros w.
  - exists w. split; [reflexivity|]. exists []. symmetry. apply app_nil_r.
  - cbn [push_phase].
    destruct (push_keeps sock sock hz period w Hp) as [w1 [E1 [[e1 L1] _]]].
    rewrite E1. destruct (IH w1) as [w' [E' [e2 L2]]].
    exists w'. split; [exact E'|]. exists (e1 ++ e2).
    rewrite L2, L1, app_assoc. reflexivity.
Qed.





(** *** Turns of the loop with nothing to read *)

(** A push changes neither the direction nor the speed. *)
Lemma push_keeps_motion (sock : nat) (hz : float) (w w' : World) :
  push_telem_if_due env sock hz w = Some w' ->
  direction (telem w') = direction (telem w)
  /\ speed_mps (telem w') = speed_mps (telem w).
Proof.
  unfold push_telem_if_due.
  destruct (heap w !! sock) as [st|] eqn:Hst;
    [|intros H; injection H as <-; split; reflexivity].
  destruct (py_fdiv 1%float hz) as [period|]; [|discriminate].
  cbv zeta.
  destruct (PrimFloat.leb period (clock env (n_clock w) - last_push st)%float);
    [|intros H; injection H as <-; split; reflexivity].
  rewrite telemetry_tick_eq. fields.
  destruct (negb (closed st) && send_ok env (n_send w)).
  - intros H. injection H as <-. split; reflexivity.
  - intros H. injection H as <-.
    match goal with |- context [close_conn env sock ?x] => set (w1 := x) end.
    assert (E : telem (close_conn env sock w1) = telem w1).
    { destruct (heap w1 !! sock) as [st1|] eqn:H1.
      - destruct (closed st1) eqn:Hc.
        + rewrite (close_conn_closed sock w1 st1 H1 Hc). reflexivity.
        + rewrite (close_conn_open sock w1 st1 H1 Hc). reflexivity.
      - unfold close_conn. rewrite H1. reflexivity. }
    rewrite E. split; reflexivity.
Qed.

Lemma push_phase_keeps_motion (socks : list nat) (hz : float) :
  forall w w',
    push_phase env socks hz w = Some w' ->
    direction (telem w') = direction (telem w)
    /\ speed_mps (telem w') = speed_mps (telem w).
Proof.
  induction socks as [|sock socks IH]; intros w w' H; cbn [push_phase] in H.
  - injection H as <-. split; reflexivity.
  - destruct (push_telem_if_due env sock hz w) as [w1|] eqn:E; [|discriminate].
    destruct (push_keeps_motion sock hz w w1 E) as [D1 S1].
    destruct (IH w1 w' H) as [D2 S2]. split; congruence.
Qed.

(** C1, as the loop is: the reactor has no inactivity check. Turns of
    the loop in which no descriptor is ready, however many and whatever
    the clock reads, end normally and leave the direction and the speed of
    the telemetry record as they were; with no client connected they
    change nothing at all, so no actuator call is made either. *)
Theorem idle_turns_keep_direction (n : nat) (w : World) :
  exists w',
    run env (repeat [] n) w = Some w'
    /\ direction (telem w') = direction (telem w)
    /\ speed_mps (telem w') = speed_mps (telem w)
    /\ (conn_socks (sel_map w) = [] -> w' = w).
Proof.
  revert w. induction n as [|n IH]; intros w; cbn [repeat run].
  - exists w. repeat split; reflexivity.
  - unfold heartbeat at 1. cbn [service_phase].
    destruct (push_phase_returns (conn_socks (sel_map w)) 3%float (1 / 3)%float
                eq_refl w) as [w1 [E1 _]].
    rewrite E1.
    destruct (push_phase_keeps_motion _ _ w w1 E1) as [D1 S1].
    destruct (IH w1) as [w' [E' [D' [S' N']]]].
    exists w'. split; [exact E'|]. split; [congruence|]. split; [congruence|].
    intros Hnone. rewrite Hnone in E1. cbn [push_phase] in E1.
    injection E1 as <-. apply N', Hnone.
Qed.

(** ** The dispatcher, further *)

(** X1: the steering tokens, in any case and with any whitespace around
    them, call [set_steer] with their own name, which turns the servo to
    minus the maximum angle, the maximum angle or 0 when there is
    hardware, and set the [steer] entry of the telemetry record: nothing
    else of the record changes, so neither the direction, nor the speed,
    nor the distance. *)
Theorem steering_tokens (pre tok post : text) (w : World) :
  forallb is_space pre = true ->
  forallb is_space post = true ->
  let w' := apply_cmd env (pre ++ tok ++ post) w in
  (map ascii_lower tok = lit "left" ->
     log w' = log w ++ [EvPrint (DCmd (lit "left")); EvSetSteer (lit "left")]
                    ++ px_events env (PxServo (- DIR_MAX_ANGLE))
     /\ telem w' = set_wrv_steer (lit "left") (telem w))
  /\ (map ascii_lower tok = lit "right" ->
     log w' = log w ++ [EvPrint (DCmd (lit "right")); EvSetSteer (lit "right")]
                    ++ px_events env (PxServo DIR_MAX_ANGLE)
     /\ telem w' = set_wrv_steer (lit "right") (telem w))
  /\ (map ascii_lower tok = lit "center" ->
     log w' = log w ++ [EvPrint (DCmd (lit "center"));
                        EvSetSteer (lit "center")]
                    ++ px_events env (PxServo 0)
     /\ telem w' = set_wrv_steer (lit "center") (telem w)).
Proof.
  intros Hpre Hpost w'. subst w'. rewrite apply_cmd_eq.
  split; [|split]; intros E;
    rewrite (normalize_padded pre tok post _ Hpre Hpost E)
      by (reflexivity || discriminate);
    split; reflexivity.
Qed.

Lemma dispatch_telem_idempotent (c : text) (t : Telem) :
  dispatch_telem c (dispatch_telem c t) = dispatch_telem c t.
Proof. unfold dispatch_telem. repeat case_bool_decide; reflexivity. Qed.

(** X2: a command that comes twice leaves the telemetry record as it is
    after the first time; the actuator is called again each time: the
    second dispatch adds to the log what the first added. *)
Theorem repeated_command (cmd : text) (w : World) :
  telem (apply_cmd env cmd (apply_cmd env cmd w)) = telem (apply_cmd env cmd w)
  /\ log (apply_cmd env cmd (apply_cmd env cmd w))
     = log w ++ dispatch_events env (normalize env cmd)
             ++ dispatch_events env (normalize env cmd)
  /\ log (apply_cmd env cmd w)
     = log w ++ dispatch_events env (normalize env cmd).
Proof.
  rewrite !apply_cmd_eq. fields. rewrite dispatch_telem_idempotent.
  rewrite <- app_assoc. repeat split.
Qed.

(** X3: a motion command and a steering command leave the same telemetry
    record in either order: the last writer wins within the motion
    commands and within the steering commands, not across them. *)
Theorem motion_steer_commute (c1 c2 : text) (w : World) :
  is_motion (normalize env c1) = true ->
  is_steer (normalize env c2) = true ->
  telem (apply_cmd env c1 (apply_cmd env c2 w))
  = telem (apply_cmd env c2 (apply_cmd env c1 w))
  /\ direction (telem (apply_cmd env c1 (apply_cmd env c2 w)))
     = normalize env c1
  /\ wrv_steer (telem (apply_cmd env c1 (apply_cmd env c2 w)))
     = normalize env c2.
Proof.
  intros H1 H2. rewrite !apply_cmd_eq. fields.
  unfold is_motion in H1. unfold is_steer in H2.
  rewrite !orb_true_iff, !bool_decide_eq_true in H1, H2.
  destruct H1 as [[-> | ->] | ->]; destruct H2 as [[-> | ->] | ->];
    repeat split.
Qed.
(** ** Reads, further *)

Lemma close_conn_telem (sock : nat) (w : World) :
  telem (close_conn env sock w) = telem w.
Proof.
  destruct (heap w !! sock) as [st|] eqn:Hst.
  - destruct (closed st) eqn:Hc.
    + rewrite (close_conn_closed sock w st Hst Hc). reflexivity.
    + rewrite (close_conn_open sock w st Hst Hc). reflexivity.
  - unfold close_conn. rewrite Hst. reflexivity.
Qed.

Lemma service_fails (sock : nat) (r : RecvResult) (w : World) (st : ConnState) :
  heap w !! sock = Some st ->
  closed st = false ->
  r = RecvBytes [] \/ r = RecvFail ->
  service env sock r w
  = close_conn env sock (emit (EvPrint (DDisconnected (addr st))) w).
Proof.
  intros Hst Hopen [-> | ->]; unfold service; rewrite Hst, Hopen; reflexivity.
Qed.

Lemma service_closed (sock : nat) (r : RecvResult) (w : World) (st : ConnState) :
  heap w !! sock = Some st ->
  closed st = true ->
  service env sock r w = emit (EvPrint (DDisconnected (addr st))) w.
Proof.
  intros Hst Hc. unfold service. rewrite Hst, Hc.
  apply (close_conn_closed sock _ st); [exact Hst|exact Hc].
Qed.

(** X4: when [recv] returns no byte (the peer has closed) or raises
    anything but "would block", the connection is torn down: it is
    unregistered, closed and marked closed, and the actuator is stopped.
    The partial line its buffer may hold is never dispatched: the
    telemetry record stays as it was, also when it says the car is
    moving. A later read on it dispatches nothing either. *)
Theorem read_failure_tears_down
        (sock : nat) (r : RecvResult) (w : World) (st : ConnState) :
  heap w !! sock = Some st ->
  closed st = false ->
  r = RecvBytes [] \/ r = RecvFail ->
  let w' := service env sock r w in
  log w' = log w ++ [EvPrint (DDisconnected (addr st));
                     EvUnregister sock; EvClose sock]
                 ++ safe_stop_events env
  /\ telem w' = telem w
  /\ heap w' !! sock = Some (set_closed true st)
  /\ ~ In (KConn sock) (sel_map w')
  /\ forall r', service env sock r' w'
                = emit (EvPrint (DDisconnected (addr st))) w'.
Proof.
  intros Hst Hopen Hr w'. subst w'.
  rewrite (service_fails sock r w st Hst Hopen Hr).
  set (w0 := emit (EvPrint (DDisconnected (addr st))) w).
  assert (H0 : heap w0 !! sock = Some st) by exact Hst.
  pose proof (close_conn_marks_closed sock w0 st H0 Hopen) as Hm.
  rewrite (close_conn_open sock w0 st H0 Hopen) in *.
  split; [subst w0; fields; rewrite <- !app_assoc; reflexivity|].
  split; [reflexivity|]. split; [exact Hm|]. split.
  - fields. rewrite <- list_elem_of_In, list_elem_of_filter. tauto.
  - intros r'. apply (service_closed sock r' _ _ Hm). reflexivity.
Qed.

Lemma lstrip_all_space (s : text) : forallb is_space s = true -> lstrip s = [].
Proof.
  intros H. pose proof (lstrip_spaces s [] H) as E.
  rewrite app_nil_r in E. exact E.
Qed.

Lemma strip_all_space (s : text) : forallb is_space s = true -> strip s = [].
Proof. intros H. unfold strip. rewrite lstrip_all_space by exact H. reflexivity. Qed.

Lemma split_lines_forallb (p : N -> bool) (s : text) :
  forallb p s = true ->
  forallb (forallb p) (split_lines s).1 = true
  /\ forallb p (split_lines s).2 = true.
Proof.
  induction s as [|c s IH]; intros H; [split; reflexivity|].
  cbn [forallb] in H. apply andb_true_iff in H as [Hc Hs].
  destruct (IH Hs) as [H1 H2]. cbn [split_lines].
  destruct (split_lines s) as [ls r]. cbn [fst snd] in *.
  destruct (c =? NL).
  - split; [exact H1|exact H2].
  - destruct ls as [|l ls]; cbn [fst snd forallb] in *.
    + rewrite Hc, H2. split; reflexivity.
    + apply andb_true_iff in H1 as [Hl Hls]. rewrite Hc, Hl, Hls, H2.
      split; reflexivity.
Qed.

Lemma cmds_of_all_space (s : text) : forallb is_space s = true -> cmds_of s = [].
Proof.
  intros H. destruct (split_lines_forallb is_space s H) as [H1 _].
  unfold cmds_of. induction (split_lines s).1 as [|l ls IH]; [reflexivity|].
  cbn [forallb] in H1. apply andb_true_iff in H1 as [Hl Hls].
  cbn [map List.filter]. rewrite (strip_all_space l Hl). cbn [nonempty].
  apply IH, Hls.
Qed.

(** X5: blank lines are skipped in silence. A read that, with what the
    buffer held, makes up nothing but whitespace (newlines, carriage
    returns, spaces, tabs) writes no ACK and dispatches nothing: all it
    leaves is the print of the raw read and the pending whitespace. *)
Theorem blank_lines_skipped
        (sock : nat) (chunk : list byte) (w : World) (st : ConnState) :
  heap w !! sock = Some st ->
  closed st = false ->
  chunk <> [] ->
  forallb is_space (buf_in st ++ utf8_decode_ignore chunk) = true ->
  let w' := service env sock (RecvBytes chunk) w in
  log w' = log w ++ [EvPrint (DRx (addr st) (utf8_decode_ignore chunk))]
  /\ telem w' = telem w
  /\ n_send w' = n_send w
  /\ sel_map w' = sel_map w.
Proof.
  intros Hst Hopen Hne Hsp w'. subst w'.
  rewrite (service_eq sock chunk w st Hst Hopen Hne), served_eq.
  rewrite (cmds_of_all_space _ Hsp). fields.
  cbn [served_events served_telem fold_left length].
  rewrite app_nil_r, Nat.add_0_r. repeat split.
Qed.

Lemma find_nl_app_none (s t : text) :
  find_nl s = None -> find_nl t = None -> find_nl (s ++ t) = None.
Proof.
  intros Hs Ht. induction s as [|c s IH]; [exact Ht|].
  cbn [app find_nl] in *. destruct (c =? NL); [discriminate|].
  destruct (find_nl s); [discriminate|]. rewrite IH by reflexivity. reflexivity.
Qed.

(** X6: a read that brings no newline dispatches nothing and writes no
    ACK: its text is appended to the pending line as it is, and waits in
    the buffer for the newline. *)
Theorem partial_line_waits
        (sock : nat) (chunk : list byte) (w : World) (st : ConnState) :
  heap w !! sock = Some st ->
  closed st = false ->
  chunk <> [] ->
  find_nl (buf_in st) = None ->
  find_nl (utf8_decode_ignore chunk) = None ->
  let w' := service env sock (RecvBytes chunk) w in
  heap w' !! sock
  = Some (set_buf_in (buf_in st ++ utf8_decode_ignore chunk) st)
  /\ log w' = log w ++ [EvPrint (DRx (addr st) (utf8_decode_ignore chunk))]
  /\ telem w' = telem w
  /\ n_send w' = n_send w.
Proof.
  intros Hst Hopen Hne Hb Hc w'. subst w'.
  pose proof (find_nl_app_none _ _ Hb Hc) as Hnone.
  rewrite (service_eq sock chunk w st Hst Hopen Hne).
  split.
  - rewrite (heap_served sock (addr st) _
               (emit (EvPrint (DRx (addr st) (utf8_decode_ignore chunk))) w)
               st Hst), (rest_of_id _ Hnone).
    reflexivity.
  - rewrite served_eq, (cmds_of_no_nl _ Hnone). fields.
    cbn [served_events served_telem fold_left length].
    rewrite app_nil_r, Nat.add_0_r. repeat split.
Qed.
(** ** The selector and the store *)

Lemma initial_world_wf : wf_world (initial_world env).
Proof.
  split; cbn [initial_world heap sel_map next_sock].
  - intros s [H|[]]. discriminate.
  - intros s st H. rewrite lookup_empty in H. discriminate.
  - intros s st H. rewrite lookup_empty in H. discriminate.
  - intros s st H. rewrite lookup_empty in H. discriminate.
  - repeat constructor. intros H. inversion H.
Qed.

(** The invariant reads the store, the selector and the socket counter
    only. *)
Lemma wf_world_ext (w w' : World) :
  heap w' = heap w -> sel_map w' = sel_map w -> next_sock w' = next_sock w ->
  wf_world w -> wf_world w'.
Proof.
  intros Hh Hs Hn [A B C D E].
  split; unfold conn_open; rewrite ?Hh, ?Hs, ?Hn; assumption.
Qed.

Lemma accept_wf (a : Addr) (w : World) : wf_world w -> wf_world (accept a w).
Proof.
  intros [A B C D E]. unfold accept.
  split; unfold conn_open; fields.
  - intros s Hin. apply in_app_or in Hin as [Hin|[Hin|[]]].
    + destruct (A s Hin) as [st [Hst Ho]].
      exists st. split; [|exact Ho].
      rewrite lookup_insert_ne; [exact Hst|].
      intros <-. specialize (C _ _ Hst). lia.
    + injection Hin as <-. eexists. split; [apply lookup_insert_eq|reflexivity].
  - intros s st Hst Ho. apply in_or_app.
    destruct (decide (s = next_sock w)) as [->|Hne].
    + right. left. reflexivity.
    + left. rewrite lookup_insert_ne in Hst by congruence. eapply B; eassumption.
  - intros s st Hst.
    destruct (decide (s = next_sock w)) as [->|Hne]; [lia|].
    rewrite lookup_insert_ne in Hst by congruence. specialize (C _ _ Hst). lia.
  - intros s st Hst.
    destruct (decide (s = next_sock w)) as [->|Hne].
    + rewrite lookup_insert_eq in Hst. injection Hst as <-. reflexivity.
    + rewrite lookup_insert_ne in Hst by congruence. eapply D; eassumption.
  - apply NoDup_app. split; [exact E|]. split.
    + intros k Hk Hin. apply list_elem_of_In in Hin. destruct Hin as [<-|[]].
      apply list_elem_of_In in Hk.
      destruct (A _ Hk) as [st [Hst _]]. specialize (C _ _ Hst). lia.
    + repeat constructor. intros H. inversion H.
Qed.

Lemma close_conn_wf (sock : nat) (w : World) :
  wf_world w -> wf_world (close_conn env sock w).
Proof.
  intros Hwf.
  destruct (heap w !! sock) as [st|] eqn:Hst.
  - destruct (closed st) eqn:Hc.
    + rewrite (close_conn_closed sock w st Hst Hc). exact Hwf.
    + rewrite (close_conn_open sock w st Hst Hc).
      destruct Hwf as [A B C D E].
      split; unfold conn_open; fields.
      * intros s Hin. apply list_elem_of_In, list_elem_of_filter in Hin.
        destruct Hin as [Hne Hin]. apply list_elem_of_In in Hin.
        destruct (A s Hin) as [st' [Hst' Ho]].
        exists st'. split; [|exact Ho].
        rewrite lookup_insert_ne; [exact Hst'|congruence].
      * intros s st' Hst' Ho.
        destruct (decide (s = sock)) as [->|Hne].
        -- rewrite lookup_insert_eq in Hst'. injection Hst' as <-. discriminate.
        -- rewrite lookup_insert_ne in Hst' by congruence.
           apply list_elem_of_In, list_elem_of_filter.
           split; [congruence|]. apply list_elem_of_In. eapply B; eassumption.
      * intros s st' Hst'.
        destruct (decide (s = sock)) as [->|Hne]; [eapply C; eassumption|].
        rewrite lookup_insert_ne in Hst' by congruence. eapply C; eassumption.
      * intros s st' Hst'.
        destruct (decide (s = sock)) as [->|Hne].
        -- rewrite lookup_insert_eq in Hst'. injection Hst' as <-.
           apply (D sock st Hst).
        -- rewrite lookup_insert_ne in Hst' by congruence. eapply D; eassumption.
      * apply NoDup_filter, E.
  - unfold close_conn. rewrite Hst. exact Hwf.
Qed.

(** An update of one connection that keeps it open or closed as it was
    and leaves its buffer without a complete line. *)
Lemma alter_wf (f : ConnState -> ConnState) (sock : nat) (w w' : World) :
  (forall st, closed (f st) = closed st) ->
  (forall st, find_nl (buf_in st) = None -> find_nl (buf_in (f st)) = None) ->
  heap w' = alter f sock (heap w) ->
  sel_map w' = sel_map w ->
  next_sock w' = next_sock w ->
  wf_world w -> wf_world w'.
Proof.
  intros Hc Hb Hh Hs Hn [A B C D E].
  assert (L : forall s st', heap w' !! s = Some st' ->
              exists st, heap w !! s = Some st
                         /\ closed st' = closed st
                         /\ (find_nl (buf_in st) = None ->
                             find_nl (buf_in st') = None)).
  { intros s st' H. rewrite Hh, lookup_alter in H.
    destruct (decide (sock = s)) as [->|Hne].
    - destruct (heap w !! s) as [st|]; [|discriminate].
      injection H as <-. exists st. split; [reflexivity|].
      split; [apply Hc|apply Hb].
    - exists st'. split; [exact H|]. split; [reflexivity|tauto]. }
  split; unfold conn_open; rewrite ?Hs, ?Hn.
  - intros s Hin. destruct (A s Hin) as [st [Hst Ho]].
    rewrite Hh, lookup_alter. destruct (decide (sock = s)) as [->|Hne].
    + rewrite Hst. exists (f st). split; [reflexivity|]. rewrite Hc. exact Ho.
    + exists st. split; assumption.
  - intros s st' H Ho. destruct (L s st' H) as [st [Hst [Ec _]]].
    apply (B s st Hst). congruence.
  - intros s st' H. destruct (L s st' H) as [st [Hst _]]. eapply C; eassumption.
  - intros s st' H. destruct (L s st' H) as [st [Hst [_ Eb]]].
    apply Eb. eapply D; eassumption.
  - exact E.
Qed.

Lemma service_wf (sock : nat) (r : RecvResult) (w : World) :
  wf_world w -> wf_world (service env sock r w).
Proof.
  intros Hwf.
  assert (Hfail : forall a,
            wf_world (close_conn env sock (emit (EvPrint (DDisconnected a)) w))).
  { intros a. apply close_conn_wf.
    apply (wf_world_ext w); [reflexivity..|exact Hwf]. }
  destruct (heap w !! sock) as [st|] eqn:Hst.
  - destruct (closed st) eqn:Hc.
    + unfold service. rewrite Hst, Hc. apply Hfail.
    + destruct r as [chunk| |].
      * destruct chunk as [|b chunk].
        { unfold service. rewrite Hst, Hc. apply Hfail. }
        rewrite (service_eq sock (b :: chunk) w st Hst Hc) by discriminate.
        rewrite served_eq.
        eapply (alter_wf _ sock w); [| |reflexivity|reflexivity|reflexivity|exact Hwf].
        -- intros st'. reflexivity.
        -- intros st' _. apply rest_of_no_nl.
      * unfold service. rewrite Hst, Hc. exact Hwf.
      * unfold service. rewrite Hst, Hc. apply Hfail.
  - unfold service. rewrite Hst. exact Hwf.
Qed.

Lemma push_wf (sock : nat) (hz : float) (w w' : World) :
  wf_world w -> push_telem_if_due env sock hz w = Some w' -> wf_world w'.
Proof.
  intros Hwf. unfold push_telem_if_due.
  destruct (heap w !! sock) as [st|] eqn:Hst;
    [|intros H; injection H as <-; exact Hwf].
  destruct (py_fdiv 1%float hz) as [period|]; [|discriminate].
  cbv zeta.
  destruct (PrimFloat.leb period (clock env (n_clock w) - last_push st)%float).
  - rewrite telemetry_tick_eq. fields.
    destruct (negb (closed st) && send_ok env (n_send w)).
    + intros H. injection H as <-.
      eapply (alter_wf _ sock w); [| |reflexivity|reflexivity|reflexivity|exact Hwf].
      * intros st'. reflexivity.
      * intros st' H. exact H.
    + intros H. injection H as <-. apply close_conn_wf.
      apply (wf_world_ext w); [reflexivity..|exact Hwf].
  - intros H. injection H as <-.
    apply (wf_world_ext w); [reflexivity..|exact Hwf].
Qed.

Lemma service_phase_wf (ready : list ReadyEv) :
  forall w w', wf_world w -> service_phase env ready w = Some w' -> wf_world w'.
Proof.
  induction ready as [|ev ready IH]; intros w w' Hwf H; cbn [service_phase] in H.
  - injection H as <-. exact Hwf.
  - destruct ev as [[a|]|sock r]; [| discriminate |].
    + apply (IH _ _ (accept_wf a w Hwf) H).
    + apply (IH _ _ (service_wf sock r w Hwf) H).
Qed.

Lemma push_phase_wf (socks : list nat) (hz : float) :
  forall w w', wf_world w -> push_phase env socks hz w = Some w' -> wf_world w'.
Proof.
  induction socks as [|sock socks IH]; intros w w' Hwf H; cbn [push_phase] in H.
  - injection H as <-. exact Hwf.
  - destruct (push_telem_if_due env sock hz w) as [w1|] eqn:E; [|discriminate].
    apply (IH _ _ (push_wf sock hz w w1 Hwf E) H).
Qed.

Lemma heartbeat_wf (ready : list ReadyEv) (w w' : World) :
  wf_world w -> heartbeat env ready w = Some w' -> wf_world w'.
Proof.
  intros Hwf. unfold heartbeat.
  destruct (service_phase env ready w) as [w1|] eqn:E; [|discriminate].
  apply push_phase_wf. apply (service_phase_wf ready w w1 Hwf E).
Qed.

Lemma run_wf (inputs : list (list ReadyEv)) :
  forall w w', wf_world w -> run env inputs w = Some w' -> wf_world w'.
Proof.
  induction inputs as [|ready inputs IH]; intros w w' Hwf H; cbn [run] in H.
  - injection H as <-. exact Hwf.
  - destruct (heartbeat env ready w) as [w1|] eqn:E; [|discriminate].
    apply (IH _ _ (heartbeat_wf ready w w1 Hwf E) H).
Qed.

Lemma conn_socks_In (s : nat) (l : list SelKey) :
  In s (conn_socks l) <-> In (KConn s) l.
Proof.
  unfold conn_socks. rewrite in_flat_map. split.
  - intros [k [Hk Hs]]. destruct k as [|s']; [destruct Hs|].
    destruct Hs as [->|[]]. exact Hk.
  - intros H. exists (KConn s). split; [exact H|left; reflexivity].
Qed.

Lemma conn_socks_nodup (l : list SelKey) : NoDup l -> NoDup (conn_socks l).
Proof.
  intros E. induction l as [|k l IH]; [constructor|].
  apply NoDup_cons in E as [Hk El].
  destruct k as [|s]; cbn [conn_socks flat_map app].
  - apply IH, El.
  - apply NoDup_cons. split; [|apply IH, El].
    intros Hin. apply Hk. apply list_elem_of_In in Hin.
    apply list_elem_of_In. apply conn_socks_In. exact Hin.
Qed.

(** X7: in every world the loop reaches, the selector and the store
    agree: a connection is registered exactly when it is open, and it is
    registered once. So none is left open outside the selector, and none
    that was torn down is left in it. *)
Theorem registered_iff_open (inputs : list (list ReadyEv)) (w : World) :
  run env inputs (initial_world env) = Some w ->
  (forall s, In (KConn s) (sel_map w) <-> conn_open w s)
  /\ NoDup (conn_socks (sel_map w)).
Proof.
  intros H. destruct (run_wf inputs _ w initial_world_wf H) as [A B C D E].
  split.
  - intros s. split; [apply A|]. intros [st [Hst Ho]]. eapply B; eassumption.
  - apply conn_socks_nodup, E.
Qed.

(** X8: in every world the loop reaches, no buffer holds a complete line:
    what a read brings is dispatched up to its last newline within that
    read, and every buffer is the one partial line that follows. *)
Theorem buffers_hold_no_line (inputs : list (list ReadyEv)) (w : World) :
  run env inputs (initial_world env) = Some w ->
  forall s st, heap w !! s = Some st ->
               find_nl (buf_in st) = None /\ cmds_of (buf_in st) = [].
Proof.
  intros H s st Hst.
  destruct (run_wf inputs _ w initial_world_wf H) as [_ _ _ D _].
  split; [eapply D; eassumption|]. apply cmds_of_no_nl. eapply D; eassumption.
Qed.
(** ** The shape of the telemetry record *)

Lemma dispatch_telem_ok (c : text) (t : Telem) :
  telem_ok t -> telem_ok (dispatch_telem c t).
Proof.
  intros H. unfold dispatch_telem.
  repeat case_bool_decide; try exact H;
    destruct H as [Hd [Hm [Hs Hb]]]; unfold telem_ok;
    cbn [direction speed_mps wrv_moving wrv_steer wrv_battery
         set_direction set_speed_mps set_wrv_moving set_wrv_steer
         set_distance_m];
    tauto.
Qed.

Lemma served_telem_ok (cmds : list text) :
  forall t, telem_ok t -> telem_ok (served_telem env cmds t).
Proof.
  unfold served_telem.
  induction cmds as [|cmd cmds IH]; intros t H; cbn [fold_left]; [exact H|].
  apply IH, dispatch_telem_ok, H.
Qed.

Lemma ticked_ok (w : World) : telem_ok (telem w) -> telem_ok (ticked env w).
Proof. intros H. exact H. Qed.

Lemma service_telem_ok (sock : nat) (r : RecvResult) (w : World) :
  telem_ok (telem w) -> telem_ok (telem (service env sock r w)).
Proof.
  intros H.
  destruct (heap w !! sock) as [st|] eqn:Hst;
    [|unfold service; rewrite Hst; exact H].
  destruct (closed st) eqn:Hc.
  { rewrite (service_closed sock r w st Hst Hc). exact H. }
  destruct r as [[|b chunk]| |].
  - rewrite (service_fails sock _ w st Hst Hc) by (left; reflexivity).
    rewrite close_conn_telem. exact H.
  - rewrite (service_eq sock (b :: chunk) w st Hst Hc) by discriminate.
    rewrite served_eq. fields. apply served_telem_ok, H.
  - unfold service. rewrite Hst, Hc. exact H.
  - rewrite (service_fails sock _ w st Hst Hc) by (right; reflexivity).
    rewrite close_conn_telem. exact H.
Qed.

(** What a push does to the telemetry record: nothing, or the tick. *)
Lemma push_telem (sock : nat) (hz : float) (w w' : World) :
  push_telem_if_due env sock hz w = Some w' ->
  telem w' = telem w
  \/ telem w' = ticked env (with_n_clock (S (n_clock w)) w).
Proof.
  unfold push_telem_if_due.
  destruct (heap w !! sock) as [st|] eqn:Hst;
    [|intros H; injection H as <-; left; reflexivity].
  destruct (py_fdiv 1%float hz) as [period|]; [|discriminate].
  cbv zeta.
  destruct (PrimFloat.leb period (clock env (n_clock w) - last_push st)%float);
    [|intros H; injection H as <-; left; reflexivity].
  rewrite telemetry_tick_eq. fields.
  destruct (negb (closed st) && send_ok env (n_send w));
    intros H; injection H as <-; right; [reflexivity|].
  rewrite close_conn_telem. reflexivity.
Qed.

Lemma push_telem_ok (sock : nat) (hz : float) (w w' : World) :
  telem_ok (telem w) ->
  push_telem_if_due env sock hz w = Some w' -> telem_ok (telem w').
Proof.
  intros H E. destruct (push_telem sock hz w w' E) as [-> | ->]; exact H.
Qed.

Lemma service_phase_telem_ok (ready : list ReadyEv) :
  forall w w',
    telem_ok (telem w) -> service_phase env ready w = Some w' ->
    telem_ok (telem w').
Proof.
  induction ready as [|ev ready IH]; intros w w' Hok H; cbn [service_phase] in H.
  - injection H as <-. exact Hok.
  - destruct ev as [[a|]|sock r]; [| discriminate |].
    + apply (IH (accept a w) w'); [exact Hok|exact H].
    + apply (IH _ w' (service_telem_ok sock r w Hok) H).
Qed.

Lemma push_phase_telem_ok (socks : list nat) (hz : float) :
  forall w w',
    telem_ok (telem w) -> push_phase env socks hz w = Some w' ->
    telem_ok (telem w').
Proof.
  induction socks as [|sock socks IH]; intros w w' Hok H; cbn [push_phase] in H.
  - injection H as <-. exact Hok.
  - destruct (push_telem_if_due env sock hz w) as [w1|] eqn:E; [|discriminate].
    apply (IH _ w' (push_telem_ok sock hz w w1 Hok E) H).
Qed.

Lemma run_telem_ok (inputs : list (list ReadyEv)) :
  forall w w',
    telem_ok (telem w) -> run env inputs w = Some w' -> telem_ok (telem w').
Proof.
  induction inputs as [|ready inputs IH]; intros w w' Hok H; cbn [run] in H.
  - injection H as <-. exact Hok.
  - unfold heartbeat in H.
    destruct (service_phase env ready w) as [w1|] eqn:E1; [|discriminate].
    destruct (push_phase env (conn_socks (sel_map w1)) 3%float w1) as [w2|] eqn:E2;
      [|discriminate].
    apply (IH w2 w'); [|exact H].
    apply (push_phase_telem_ok (conn_socks (sel_map w1)) 3%float w1 w2);
      [|exact E2].
    apply (service_phase_telem_ok ready w w1 Hok E1).
Qed.

(** X9: in every world the loop reaches, the telemetry record has one of
    three shapes: direction ["forward"] or ["back"] with the speed 0.55,
    or direction ["stop"] with the speed 0; its [moving] entry is its
    direction, its [steer] entry is ["left"], ["right"] or ["center"],
    and its battery entry is 80. Whatever bytes the clients send, no other
    direction, speed or steering is ever reported. *)
Theorem telemetry_keeps_its_shape (inputs : list (list ReadyEv)) (w : World) :
  run env inputs (initial_world env) = Some w ->
  ((direction (telem w) = lit "forward" /\ speed_mps (telem w) = 0.55%float)
   \/ (direction (telem w) = lit "back" /\ speed_mps (telem w) = 0.55%float)
   \/ (direction (telem w) = lit "stop" /\ speed_mps (telem w) = 0%float))
  /\ wrv_moving (telem w) = direction (telem w)
  /\ (wrv_steer (telem w) = lit "left" \/ wrv_steer (telem w) = lit "right"
      \/ wrv_steer (telem w) = lit "center")
  /\ wrv_battery (telem w) = 80%Z.
Proof.
  intros H. apply (run_telem_ok inputs (initial_world env) w); [|exact H].
  unfold telem_ok. cbn [initial_world telem direction speed_mps wrv_moving
                        wrv_steer wrv_battery]. tauto.
Qed.
(** ** What the handlers may add to the log *)

Lemma log_grows_refl (p : Event -> bool) (w : World) : log_grows p w w.
Proof. exists []. split; [symmetry; apply app_nil_r|reflexivity]. Qed.

Lemma log_grows_trans (p : Event -> bool) (w1 w2 w3 : World) :
  log_grows p w1 w2 -> log_grows p w2 w3 -> log_grows p w1 w3.
Proof.
  intros [e1 [L1 P1]] [e2 [L2 P2]]. exists (e1 ++ e2).
  split; [rewrite L2, L1, app_assoc; reflexivity|].
  rewrite forallb_app, P1, P2. reflexivity.
Qed.

Section LogGrowth.

(** A property of events that holds of every print, of every entry into
    the facade, of every change of the selector, and of the calls of the
    driver that are within the magnitudes and made with hardware. *)
Variable p : Event -> bool.
Hypothesis p_print : forall d, p (EvPrint d) = true.
Hypothesis p_motion : forall m, p (EvSetMotion m) = true.
Hypothesis p_steer : forall d, p (EvSetSteer d) = true.
Hypothesis p_unregister : forall s, p (EvUnregister s) = true.
Hypothesis p_close : forall s, p (EvClose s) = true.
Hypothesis p_px :
  forall c, px_present env = true -> px_call_ok c = true -> p (EvPx c) = true.

Lemma px_events_p (c : PxCall) :
  px_call_ok c = true -> forallb p (px_events env c) = true.
Proof.
  intros H. unfold px_events.
  remember (px_present env) as hw eqn:E. destruct hw; [|reflexivity].
  cbn [forallb]. rewrite (p_px c eq_refl H). reflexivity.
Qed.

Lemma motion_events_p (m : text) : forallb p (motion_events env m) = true.
Proof.
  unfold motion_events. cbn [forallb]. rewrite p_motion. cbv zeta.
  repeat case_bool_decide; apply px_events_p; reflexivity.
Qed.

Lemma steer_events_p (d : text) : forallb p (steer_events env d) = true.
Proof.
  unfold steer_events. cbn [forallb]. rewrite p_steer. cbv zeta.
  repeat case_bool_decide; try reflexivity; apply px_events_p; reflexivity.
Qed.

Lemma safe_stop_events_p : forallb p (safe_stop_events env) = true.
Proof.
  unfold safe_stop_events.
  rewrite forallb_app, motion_events_p, steer_events_p. reflexivity.
Qed.

Lemma dispatch_events_p (c : text) : forallb p (dispatch_events env c) = true.
Proof.
  unfold dispatch_events. cbn [forallb]. rewrite p_print.
  repeat case_bool_decide;
    first [apply motion_events_p | apply steer_events_p | idtac];
    cbn [forallb andb]; rewrite ?p_print; reflexivity.
Qed.

Lemma served_events_p (sock : nat) (a : Addr) (cmds : list text) :
  (forall x ok, p (EvSend sock (PText x) ok) = true) ->
  forall k, forallb p (served_events env sock a k cmds) = true.
Proof.
  intros Hack. induction cmds as [|cmd cmds IH]; intros k;
    cbn [served_events]; [reflexivity|].
  rewrite !forallb_app, dispatch_events_p, IH.
  unfold ack_events. cbn [forallb]. rewrite Hack.
  destruct (send_ok env k); cbn [forallb]; rewrite ?p_print; reflexivity.
Qed.

Lemma emit_grows (e : Event) (w : World) :
  p e = true -> log_grows p w (emit e w).
Proof.
  intros H. exists [e]. split; [reflexivity|]. cbn [forallb]. rewrite H.
  reflexivity.
Qed.

Lemma close_conn_grows (sock : nat) (w : World) :
  log_grows p w (close_conn env sock w).
Proof.
  destruct (heap w !! sock) as [st|] eqn:Hst.
  - destruct (closed st) eqn:Hc.
    + rewrite (close_conn_closed sock w st Hst Hc). apply log_grows_refl.
    + rewrite (close_conn_open sock w st Hst Hc).
      eexists. split; [reflexivity|].
      rewrite forallb_app, safe_stop_events_p. cbn [forallb].
      rewrite p_unregister, p_close. reflexivity.
  - unfold close_conn. rewrite Hst. apply log_grows_refl.
Qed.

Lemma accept_grows (a : Addr) (w : World) : log_grows p w (accept a w).
Proof.
  exists [EvPrint (DClient a)]. split; [reflexivity|].
  cbn [forallb]. rewrite p_print. reflexivity.
Qed.

Lemma service_grows (sock : nat) (r : RecvResult) (w : World) :
  (forall x ok, p (EvSend sock (PText x) ok) = true) ->
  log_grows p w (service env sock r w).
Proof.
  intros Hack.
  assert (Hfail : forall a, log_grows p w
            (close_conn env sock (emit (EvPrint (DDisconnected a)) w))).
  { intros a. eapply log_grows_trans; [apply emit_grows, p_print|].
    apply close_conn_grows. }
  destruct (heap w !! sock) as [st|] eqn:Hst;
    [|unfold service; rewrite Hst; apply log_grows_refl].
  destruct (closed st) eqn:Hc.
  { unfold service. rewrite Hst, Hc. apply Hfail. }
  destruct r as [[|b chunk]| |].
  - unfold service. rewrite Hst, Hc. apply Hfail.
  - rewrite (service_eq sock (b :: chunk) w st Hst Hc) by discriminate.
    rewrite served_eq. eexists. fields.
    split; [rewrite <- app_assoc; reflexivity|].
    cbn [app forallb]. rewrite p_print. apply served_events_p, Hack.
  - unfold service. rewrite Hst, Hc. apply log_grows_refl.
  - unfold service. rewrite Hst, Hc. apply Hfail.
Qed.

(** The events of a push: none, or the write of one telemetry line to
    its connection followed by events among which there is no write. *)
Lemma push_events (sock : nat) (hz : float) (w w' : World) :
  push_telem_if_due env sock hz w = Some w' ->
  log w' = log w
  \/ exists t ok evs,
       log w' = log w ++ EvSend sock (PJsonLine t) ok :: evs
       /\ forallb p evs = true
       /\ forallb (fun e => negb (is_send e)) evs = true.
Proof.
  unfold push_telem_if_due.
  destruct (heap w !! sock) as [st|] eqn:Hst;
    [|intros H; injection H as <-; left; reflexivity].
  destruct (py_fdiv 1%float hz) as [period|]; [|discriminate].
  cbv zeta.
  destruct (PrimFloat.leb period (clock env (n_clock w) - last_push st)%float);
    [|intros H; injection H as <-; left; reflexivity].
  rewrite telemetry_tick_eq. fields.
  destruct (negb (closed st) && send_ok env (n_send w));
    intros H; injection H as <-; right.
  - eexists _, _, []. split; [reflexivity|]. split; reflexivity.
  - match goal with |- context [close_conn env sock ?x] => set (w1 := x) end.
    destruct (heap w1 !! sock) as [st1|] eqn:H1.
    + destruct (closed st1) eqn:Hc.
      * rewrite (close_conn_closed sock w1 st1 H1 Hc). subst w1. fields.
        eexists _, _, [_]. split; [rewrite <- app_assoc; reflexivity|].
        cbn [forallb is_send negb andb]. rewrite p_print. split; reflexivity.
      * rewrite (close_conn_open sock w1 st1 H1 Hc). subst w1. fields.
        eexists _, _, _. split; [rewrite <- !app_assoc; reflexivity|].
        cbn [app forallb is_send negb andb].
        rewrite p_print, p_unregister, p_close, safe_stop_events_p.
        split; [reflexivity|].
        unfold safe_stop_events, motion_events, steer_events, px_events.
        cbv zeta. remember (px_present env) as hw eqn:E. destruct hw;
          repeat case_bool_decide; reflexivity.
    + unfold close_conn. rewrite H1. subst w1. fields.
      eexists _, _, [_]. split; [rewrite <- app_assoc; reflexivity|].
      cbn [forallb is_send negb andb]. rewrite p_print. split; reflexivity.
Qed.

Lemma push_grows (sock : nat) (hz : float) (w w' : World) :
  (forall t ok, p (EvSend sock (PJsonLine t) ok) = true) ->
  push_telem_if_due env sock hz w = Some w' -> log_grows p w w'.
Proof.
  intros Htel E.
  destruct (push_events sock hz w w' E) as [L|[t [ok [evs [L [P _]]]]]].
  - exists []. split; [rewrite L; symmetry; apply app_nil_r|reflexivity].
  - exists (EvSend sock (PJsonLine t) ok :: evs). split; [exact L|].
    cbn [forallb]. rewrite Htel, P. reflexivity.
Qed.

Lemma service_phase_grows (ready : list ReadyEv) :
  (forall s x ok, p (EvSend s (PText x) ok) = true) ->
  forall w w', service_phase env ready w = Some w' -> log_grows p w w'.
Proof.
  intros Hack.
  induction ready as [|ev ready IH]; intros w w' H; cbn [service_phase] in H.
  - injection H as <-. apply log_grows_refl.
  - destruct ev as [[a|]|sock r]; [| discriminate |].
    + eapply log_grows_trans; [apply accept_grows|apply IH, H].
    + eapply log_grows_trans; [apply service_grows, Hack|apply IH, H].
Qed.

Lemma push_phase_grows (socks : list nat) (hz : float) :
  (forall s, In s socks -> forall t ok, p (EvSend s (PJsonLine t) ok) = true) ->
  forall w w', push_phase env socks hz w = Some w' -> log_grows p w w'.
Proof.
  induction socks as [|sock socks IH]; intros Htel w w' H; cbn [push_phase] in H.
  - injection H as <-. apply log_grows_refl.
  - destruct (push_telem_if_due env sock hz w) as [w1|] eqn:E; [|discriminate].
    eapply log_grows_trans.
    + apply (push_grows sock hz w w1); [|exact E].
      apply Htel. left. reflexivity.
    + apply IH; [|exact H]. intros s Hin. apply Htel. right. exact Hin.
Qed.

End LogGrowth.

Lemma event_ok_facts :
  let p := event_ok (px_present env) in
  (forall d, p (EvPrint d) = true)
  /\ (forall m, p (EvSetMotion m) = true)
  /\ (forall d, p (EvSetSteer d) = true)
  /\ (forall s, p (EvUnregister s) = true)
  /\ (forall s, p (EvClose s) = true)
  /\ (forall c, px_present env = true -> px_call_ok c = true ->
                p (EvPx c) = true).
Proof.
  repeat split. intros c H1 H2. cbn [event_ok]. rewrite H1, H2. reflexivity.
Qed.

Lemma run_grows_ok (inputs : list (list ReadyEv)) :
  forall w w',
    run env inputs w = Some w' -> log_grows (event_ok (px_present env)) w w'.
Proof.
  destruct event_ok_facts as [F1 [F2 [F3 [F4 [F5 F6]]]]].
  induction inputs as [|ready inputs IH]; intros w w' H; cbn [run] in H.
  - injection H as <-. apply log_grows_refl.
  - unfold heartbeat in H.
    destruct (service_phase env ready w) as [w1|] eqn:E1; [|discriminate].
    destruct (push_phase env (conn_socks (sel_map w1)) 3%float w1) as [w2|] eqn:E2;
      [|discriminate].
    eapply log_grows_trans;
      [apply (service_phase_grows _ F1 F2 F3 F4 F5 F6 ready); [reflexivity|exact E1]|].
    eapply log_grows_trans;
      [apply (push_phase_grows _ F1 F2 F3 F4 F5 F6 (conn_socks (sel_map w1)) 3%float);
       [reflexivity|exact E2]|].
    apply IH, H.
Qed.

(** X10: whatever the clients send and whatever fails, the driver is only
    ever called within the configured magnitudes: forward or backward at
    the cruise speed 80, stop, or the servo at -22, 0 or 22 degrees; and
    without hardware ([px] is [None]) it is never called at all. *)
Theorem driver_calls_bounded
        (inputs : list (list ReadyEv)) (w : World) (c : PxCall) :
  run env inputs (initial_world env) = Some w ->
  In (EvPx c) (log w) ->
  px_present env = true
  /\ (c = PxForward 80 \/ c = PxBackward 80 \/ c = PxStop
      \/ c = PxServo (-22) \/ c = PxServo 0 \/ c = PxServo 22).
Proof.
  intros H Hin.
  destruct (run_grows_ok inputs _ w H) as [evs [L P]].
  cbn [initial_world log app] in L. rewrite L in Hin.
  rewrite forallb_forall in P. specialize (P _ Hin). cbn [event_ok] in P.
  apply andb_true_iff in P as [P1 P2]. split; [exact P1|].
  destruct c as [v|v| |a]; cbn [px_call_ok] in P2.
  - apply Z.eqb_eq in P2. subst v. tauto.
  - apply Z.eqb_eq in P2. subst v. tauto.
  - tauto.
  - rewrite !orb_true_iff, !Z.eqb_eq in P2. unfold DIR_MAX_ANGLE in P2.
    destruct P2 as [[-> | ->] | ->]; tauto.
Qed.
(** ** One handler, one connection *)

Lemma sends_only_to_facts (sock : nat) :
  let p := sends_only_to sock in
  (forall d, p (EvPrint d) = true)
  /\ (forall m, p (EvSetMotion m) = true)
  /\ (forall d, p (EvSetSteer d) = true)
  /\ (forall s, p (EvUnregister s) = true)
  /\ (forall s, p (EvClose s) = true)
  /\ (forall c, px_present env = true -> px_call_ok c = true ->
                p (EvPx c) = true)
  /\ (forall x ok, p (EvSend sock x ok) = true).
Proof.
  repeat split. intros x ok. cbn [sends_only_to]. apply Nat.eqb_refl.
Qed.

Lemma touches_only_trans (sock : nat) (w1 w2 w3 : World) :
  touches_only sock w1 w2 -> touches_only sock w2 w3 ->
  touches_only sock w1 w3.
Proof.
  intros [H1 [S1 L1]] [H2 [S2 L2]]. split; [|split].
  - intros s Hne. rewrite (H2 s Hne). apply H1, Hne.
  - intros k Hk. rewrite (S2 k Hk). apply S1, Hk.
  - eapply log_grows_trans; eassumption.
Qed.

Lemma close_conn_touches (sock : nat) (w : World) :
  touches_only sock w (close_conn env sock w).
Proof.
  destruct (sends_only_to_facts sock) as [F1 [F2 [F3 [F4 [F5 [F6 F7]]]]]].
  split; [|split; [|apply close_conn_grows; assumption]].
  - intros s Hne. destruct (close_conn_keeps s sock w Hne) as [_ [H _]]. exact H.
  - intros k Hk. destruct (heap w !! sock) as [st|] eqn:Hst.
    + destruct (closed st) eqn:Hc.
      * rewrite (close_conn_closed sock w st Hst Hc). reflexivity.
      * rewrite (close_conn_open sock w st Hst Hc). fields.
        rewrite <- !list_elem_of_In, list_elem_of_filter. tauto.
    + unfold close_conn. rewrite Hst. reflexivity.
Qed.

Lemma service_touches (sock : nat) (r : RecvResult) (w : World) :
  touches_only sock w (service env sock r w).
Proof.
  destruct (sends_only_to_facts sock) as [F1 [F2 [F3 [F4 [F5 [F6 F7]]]]]].
  split; [|split; [|apply service_grows; try assumption; intros; apply F7]].
  - intros s Hne. destruct (service_keeps s sock r w Hne) as [_ [H _]]. exact H.
  - intros k Hk.
    assert (Hfail : forall a,
              In k (sel_map (close_conn env sock
                               (emit (EvPrint (DDisconnected a)) w)))
              <-> In k (sel_map w)).
    { intros a.
      destruct (close_conn_touches sock (emit (EvPrint (DDisconnected a)) w))
        as [_ [S _]].
      apply (S k Hk). }
    destruct (heap w !! sock) as [st|] eqn:Hst;
      [|unfold service; rewrite Hst; reflexivity].
    destruct (closed st) eqn:Hc.
    { unfold service. rewrite Hst, Hc. apply Hfail. }
    destruct r as [[|b chunk]| |].
    + unfold service. rewrite Hst, Hc. apply Hfail.
    + rewrite (service_eq sock (b :: chunk) w st Hst Hc) by discriminate.
      rewrite served_eq. fields. reflexivity.
    + unfold service. rewrite Hst, Hc. reflexivity.
    + unfold service. rewrite Hst, Hc. apply Hfail.
Qed.

Lemma push_touches (sock : nat) (hz : float) (w w' : World) :
  push_telem_if_due env sock hz w = Some w' -> touches_only sock w w'.
Proof.
  intros E.
  destruct (sends_only_to_facts sock) as [F1 [F2 [F3 [F4 [F5 [F6 F7]]]]]].
  split; [|split;
           [|apply (push_grows _ F1 F2 F3 F4 F5 F6 sock hz);
             [intros; apply F7|exact E]]].
  - intros s Hne. revert E. unfold push_telem_if_due.
    destruct (heap w !! sock) as [st|] eqn:Hst;
      [|intros H; injection H as <-; reflexivity].
    destruct (py_fdiv 1%float hz) as [period|]; [|discriminate].
    cbv zeta.
    destruct (PrimFloat.leb period (clock env (n_clock w) - last_push st)%float);
      [|intros H; injection H as <-; reflexivity].
    rewrite telemetry_tick_eq. fields.
    destruct (negb (closed st) && send_ok env (n_send w));
      intros H; injection H as <-.
    + fields. apply lookup_alter_ne. congruence.
    + match goal with |- context [close_conn env sock ?x] => set (w1 := x) end.
      destruct (close_conn_touches sock w1) as [H _]. rewrite (H s Hne).
      reflexivity.
  - intros k Hk. revert E. unfold push_telem_if_due.
    destruct (heap w !! sock) as [st|] eqn:Hst;
      [|intros H; injection H as <-; reflexivity].
    destruct (py_fdiv 1%float hz) as [period|]; [|discriminate].
    cbv zeta.
    destruct (PrimFloat.leb period (clock env (n_clock w) - last_push st)%float);
      [|intros H; injection H as <-; reflexivity].
    rewrite telemetry_tick_eq. fields.
    destruct (negb (closed st) && send_ok env (n_send w));
      intros H; injection H as <-.
    + fields. reflexivity.
    + match goal with |- context [close_conn env sock ?x] => set (w1 := x) end.
      destruct (close_conn_touches sock w1) as [_ [S _]]. rewrite (S k Hk).
      reflexivity.
Qed.

(** X11: a handler touches one connection. Serving [sock], pushing
    telemetry to it or tearing it down leaves every other connection the
    object it was (buffer, time of the last push, closed flag), leaves
    every other key of the selector registered or not as it was, the
    listening socket included, and writes to no other socket. *)
Theorem handlers_touch_one_connection
        (sock : nat) (r : RecvResult) (hz : float) (w : World) :
  touches_only sock w (service env sock r w)
  /\ touches_only sock w (close_conn env sock w)
  /\ (forall w', push_telem_if_due env sock hz w = Some w' ->
                 touches_only sock w w').
Proof.
  split; [apply service_touches|].
  split; [apply close_conn_touches|apply push_touches].
Qed.

(** ** The end of [main] *)

Lemma close_conn_unregisters (s sock : nat) (w : World) :
  wf_world w ->
  In (KConn s) (sel_map (close_conn env sock w)) ->
  In (KConn s) (sel_map w) /\ s <> sock.
Proof.
  intros Hwf Hin.
  destruct (heap w !! sock) as [st|] eqn:Hst.
  - destruct (closed st) eqn:Hc.
    + rewrite (close_conn_closed sock w st Hst Hc) in Hin.
      split; [exact Hin|]. intros ->.
      destruct (wf_registered_open w Hwf sock Hin) as [st' [Hst' Ho]].
      congruence.
    + rewrite (close_conn_open sock w st Hst Hc) in Hin. revert Hin. fields.
      rewrite <- !list_elem_of_In, list_elem_of_filter.
      intros [Hne Hin]. split; [exact Hin|congruence].
  - unfold close_conn in Hin. rewrite Hst in Hin.
    split; [exact Hin|]. intros ->.
    destruct (wf_registered_open w Hwf sock Hin) as [st' [Hst' Ho]].
    congruence.
Qed.

Lemma close_all_spec (socks : list nat) :
  forall w,
    wf_world w ->
    let w' := fold_left (fun w sock => close_conn env sock w) socks w in
    wf_world w'
    /\ telem w' = telem w
    /\ (exists evs, log w' = log w ++ evs)
    /\ (forall s, In (KConn s) (sel_map w') ->
                  In (KConn s) (sel_map w) /\ ~ In s socks).
Proof.
  induction socks as [|sock socks IH]; intros w Hwf; cbn [fold_left].
  - split; [exact Hwf|]. split; [reflexivity|].
    split; [exists []; symmetry; apply app_nil_r|].
    intros s Hin. split; [exact Hin|intros []].
  - destruct (IH _ (close_conn_wf sock w Hwf)) as [W [T [[e2 L] Hs]]].
    split; [exact W|]. split; [rewrite T; apply close_conn_telem|].
    split.
    + destruct (close_conn_keeps (S sock) sock w) as [[e1 L1] _]; [lia|].
      exists (e1 ++ e2). rewrite L, L1, app_assoc. reflexivity.
    + intros s Hin. destruct (Hs s Hin) as [Hin1 Hnot].
      destruct (close_conn_unregisters s sock w Hwf Hin1) as [Hin0 Hne].
      split; [exact Hin0|]. intros [->|H]; [congruence|exact (Hnot H)].
Qed.

(** X12: the [finally] of [main], from any world the loop reaches, leaves
    the selector empty and no connection open, and the last thing it does
    is the safe stop: motion ["stop"], steering ["center"]. The telemetry
    record is not told: it keeps the direction and the speed it had. *)
Theorem shutdown_closes_everything
        (inputs : list (list ReadyEv)) (w : World) :
  run env inputs (initial_world env) = Some w ->
  let w' := shutdown env w in
  sel_map w' = []
  /\ (forall s st, heap w' !! s = Some st -> closed st = true)
  /\ (exists evs, log w' = log w ++ evs ++ safe_stop_events env)
  /\ telem w' = telem w.
Proof.
  intros H w'. subst w'.
  pose proof (run_wf inputs _ w initial_world_wf H) as Hwf.
  destruct (close_all_spec (conn_socks (sel_map w)) w Hwf) as [W [T [[evs L] S]]].
  unfold shutdown. cbv zeta. rewrite hw_safe_stop_eq. fields.
  set (w1 := fold_left _ _ _) in *.
  assert (Hnone : forall s, ~ In (KConn s) (sel_map w1)).
  { intros s Hin. destruct (S s Hin) as [Hin0 Hnot].
    apply Hnot, conn_socks_In, Hin0. }
  split; [|split; [|split]].
  - destruct (filter _ (sel_map w1)) as [|k l] eqn:E; [reflexivity|].
    assert (Hk : k ∈ filter (fun k => k <> KListen) (sel_map w1))
      by (rewrite E; left).
    apply list_elem_of_filter in Hk as [Hne Hk]. apply list_elem_of_In in Hk.
    destruct k as [|s]; [congruence|]. destruct (Hnone s Hk).
  - intros s st Hst. destruct (closed st) eqn:Hc; [reflexivity|].
    destruct (Hnone s (wf_open_registered w1 W s st Hst Hc)).
  - exists evs. rewrite L, <- app_assoc. reflexivity.
  - exact T.
Qed.

(** ** Telemetry lines in a turn *)

Lemma telemetry_sends_app (s : nat) (l1 l2 : list Event) :
  telemetry_sends s (l1 ++ l2) = (telemetry_sends s l1 + telemetry_sends s l2)%nat.
Proof. unfold telemetry_sends. rewrite List.filter_app, length_app. reflexivity. Qed.

Lemma telemetry_sends_none (s : nat) (l : list Event) :
  forallb (fun e => negb (is_telemetry_to s e)) l = true ->
  telemetry_sends s l = 0%nat.
Proof.
  unfold telemetry_sends. induction l as [|e l IH]; [reflexivity|].
  cbn [forallb List.filter]. intros H. apply andb_true_iff in H as [He Hl].
  destruct (is_telemetry_to s e); [discriminate|]. apply IH, Hl.
Qed.

Lemma no_send_no_telemetry (s : nat) (l : list Event) :
  forallb (fun e => negb (is_send e)) l = true ->
  telemetry_sends s l = 0%nat.
Proof.
  intros H. apply telemetry_sends_none.
  rewrite forallb_forall in *. intros e He. specialize (H e He).
  destruct e; try reflexivity. discriminate.
Qed.

Lemma push_phase_sends (socks : list nat) (hz : float) :
  forall w w',
    push_phase env socks hz w = Some w' ->
    exists evs,
      log w' = log w ++ evs
      /\ forall s, (telemetry_sends s evs <= count_occ Nat.eq_dec socks s)%nat.
Proof.
  induction socks as [|sock socks IH]; intros w w' H; cbn [push_phase] in H.
  - injection H as <-. exists []. split; [symmetry; apply app_nil_r|].
    intros s. reflexivity.
  - destruct (push_telem_if_due env sock hz w) as [w1|] eqn:E; [|discriminate].
    destruct (IH _ _ H) as [e2 [L2 C2]].
    assert (P1 : exists e1, log w1 = log w ++ e1
                 /\ forall s, (telemetry_sends s e1
                               <= if Nat.eq_dec sock s then 1 else 0)%nat).
    { destruct (push_events (fun _ => true)
                  (fun _ => eq_refl) (fun _ => eq_refl) (fun _ => eq_refl)
                  (fun _ => eq_refl) (fun _ => eq_refl) (fun _ _ _ => eq_refl)
                  sock hz w w1 E) as [L|[t [ok [evs [L [_ N]]]]]].
      - exists []. split; [rewrite L; symmetry; apply app_nil_r|].
        intros s. cbn. lia.
      - exists (EvSend sock (PJsonLine t) ok :: evs). split; [exact L|].
        intros s.
        change (EvSend sock (PJsonLine t) ok :: evs)
          with ([EvSend sock (PJsonLine t) ok] ++ evs).
        rewrite telemetry_sends_app, (no_send_no_telemetry s evs N).
        unfold telemetry_sends. cbn [List.filter is_telemetry_to].
        destruct (Nat.eq_dec sock s) as [->|Hne].
        + rewrite Nat.eqb_refl. cbn. lia.
        + apply Nat.eqb_neq in Hne. rewrite Hne. cbn. lia. }
    destruct P1 as [e1 [L1 C1]].
    exists (e1 ++ e2). split; [rewrite L2, L1, app_assoc; reflexivity|].
    intros s. rewrite telemetry_sends_app. cbn [count_occ].
    specialize (C1 s). specialize (C2 s).
    destruct (Nat.eq_dec sock s); lia.
Qed.

(** X13: in one turn of the loop, from any world the loop reaches, a
    connection is written at most one telemetry line, whatever was read,
    accepted or torn down in that turn. *)
Theorem one_telemetry_line_per_turn
        (inputs : list (list ReadyEv)) (ready : list ReadyEv) (w w' : World) :
  run env inputs (initial_world env) = Some w ->
  heartbeat env ready w = Some w' ->
  exists evs,
    log w' = log w ++ evs
    /\ forall s, (telemetry_sends s evs <= 1)%nat.
Proof.
  intros H Hb.
  pose proof (run_wf inputs _ w initial_world_wf H) as Hwf.
  unfold heartbeat in Hb.
  destruct (service_phase env ready w) as [w1|] eqn:E1; [|discriminate].
  pose proof (service_phase_wf ready w w1 Hwf E1) as Hwf1.
  destruct (push_phase_sends _ _ _ _ Hb) as [e2 [L2 C2]].
  assert (P1 : forall s, log_grows (fun e => negb (is_telemetry_to s e)) w w1).
  { intros s. apply (service_phase_grows (fun e => negb (is_telemetry_to s e)))
      with (ready := ready); try reflexivity; exact E1. }
  destruct (P1 0%nat) as [e1 [L1 _]].
  exists (e1 ++ e2). split; [rewrite L2, L1, app_assoc; reflexivity|].
  intros s. rewrite telemetry_sends_app.
  destruct (P1 s) as [e1' [L1' N1]].
  assert (e1' = e1) by (rewrite L1 in L1'; apply app_inv_head in L1'; congruence).
  subst e1'. rewrite (telemetry_sends_none s e1 N1).
  specialize (C2 s).
  pose proof (conn_socks_nodup _ (wf_nodup w1 Hwf1)) as ND.
  apply NoDup_ListNoDup in ND. rewrite (NoDup_count_occ Nat.eq_dec) in ND. specialize (ND s). lia.
Qed.
(** ** No write after a close *)

Lemma closes_app (l1 l2 : list Event) : closes (l1 ++ l2) = closes l1 ++ closes l2.
Proof. apply flat_map_app. Qed.

Lemma closes_none (l : list Event) :
  forallb (fun e => negb (is_close e)) l = true -> closes l = [].
Proof.
  induction l as [|e l IH]; [reflexivity|].
  cbn [forallb]. intros H. apply andb_true_iff in H as [He Hl].
  destruct e; try discriminate; apply IH, Hl.
Qed.

Lemma closes_own (sock : nat) (l : list Event) :
  forallb (own_event sock) l = true -> closes l = [].
Proof.
  intros H. apply closes_none. rewrite forallb_forall in *.
  intros e He. specialize (H e He). unfold own_event in H.
  apply andb_true_iff in H as [_ H]. exact H.
Qed.

Lemma silent_app (l1 l2 : list Event) :
  forall gone,
    silent_after_close gone (l1 ++ l2)
    = silent_after_close gone l1
      && silent_after_close (rev (closes l1) ++ gone) l2.
Proof.
  induction l1 as [|e l1 IH]; intros gone; [reflexivity|].
  destruct e; cbn [app silent_after_close]; rewrite IH;
    try reflexivity.
  - rewrite andb_assoc. reflexivity.
  - change (closes (EvClose sock :: l1)) with (sock :: closes l1).
    cbn [rev]. rewrite <- app_assoc. reflexivity.
Qed.

Lemma silent_no_send (l : list Event) :
  forall gone, forallb no_send l = true -> silent_after_close gone l = true.
Proof.
  induction l as [|e l IH]; intros gone H; [reflexivity|].
  cbn [forallb] in H. apply andb_true_iff in H as [He Hl].
  destruct e; cbn [silent_after_close]; try (apply IH, Hl). discriminate.
Qed.

Lemma silent_own (sock : nat) (l : list Event) (gone : list nat) :
  ~ In sock gone ->
  forallb (own_event sock) l = true ->
  silent_after_close gone l = true.
Proof.
  intros Hnot. induction l as [|e l IH]; intros H; [reflexivity|].
  cbn [forallb] in H. apply andb_true_iff in H as [He Hl].
  destruct e as [d|m|d|c|s x ok|s|s]; cbn [silent_after_close];
    try (apply IH, Hl).
  - unfold own_event in He. cbn [sends_only_to is_close negb] in He.
    rewrite andb_true_r in He. apply Nat.eqb_eq in He. subst s.
    rewrite (IH Hl), andb_true_r.
    destruct (existsb (Nat.eqb sock) gone) eqn:E; [|reflexivity].
    apply existsb_exists in E as [s [Hin Hs]]. apply Nat.eqb_eq in Hs.
    subst s. destruct (Hnot Hin).
  - unfold own_event in He. cbn [is_close negb] in He.
    rewrite andb_false_r in He. discriminate.
Qed.

Lemma silent_In (l : list Event) (s : nat) (x : Payload) (ok : bool) :
  forall gone,
    silent_after_close gone l = true ->
    In s gone ->
    ~ In (EvSend s x ok) l.
Proof.
  induction l as [|e l IH]; intros gone H Hin Hl; [destruct Hl|].
  destruct Hl as [He|Hl].
  - subst e. cbn [silent_after_close] in H.
    apply andb_true_iff in H as [H _]. apply negb_true_iff in H.
    assert (E : existsb (Nat.eqb s) gone = true)
      by (apply existsb_exists; exists s; split;
          [exact Hin|apply Nat.eqb_refl]).
    congruence.
  - destruct e as [d|m|d|c|s' x' ok'|s'|s']; cbn [silent_after_close] in H;
      try (apply (IH gone H Hin Hl)).
    + apply andb_true_iff in H as [_ H]. apply (IH gone H Hin Hl).
    + apply (IH (s' :: gone) H); [right; exact Hin|exact Hl].
Qed.

Lemma log_inv_step (sock : nat) (w w' : World) (pre tail : list Event) :
  log_inv w ->
  log w' = log w ++ pre ++ tail ->
  forallb (own_event sock) pre = true ->
  (forallb no_send pre = true \/ conn_open w sock) ->
  forallb no_send tail = true ->
  (forall s, In s (closes tail) -> closed_in w' s) ->
  (forall s, closed_in w s -> closed_in w' s) ->
  log_inv w'.
Proof.
  intros [I1 I2] L Hpre Hopen Htail Hcl Hkeep. split.
  - rewrite L, !silent_app, I1. cbn [andb]. rewrite app_nil_r.
    rewrite (silent_no_send tail _ Htail), andb_true_r.
    destruct Hopen as [H|[st [Hst Ho]]]; [apply silent_no_send, H|].
    apply (silent_own sock); [|exact Hpre].
    intros Hin. rewrite <- in_rev in Hin.
    destruct (I2 sock Hin) as [st' [Hst' Hc]]. congruence.
  - intros s. rewrite L, !closes_app, (closes_own sock pre Hpre). cbn [app].
    intros Hin. apply in_app_or in Hin as [Hin|Hin];
      [apply Hkeep, I2, Hin|apply Hcl, Hin].
Qed.

Lemma log_inv_ext (w w' : World) :
  log w' = log w -> heap w' = heap w -> log_inv w -> log_inv w'.
Proof.
  intros L H [I1 I2]. unfold log_inv, closed_in. rewrite L, H.
  split; assumption.
Qed.

Lemma closed_in_close_conn (sock s : nat) (w : World) :
  closed_in w s -> closed_in (close_conn env sock w) s.
Proof.
  intros [st [Hst Hc]]. destruct (decide (s = sock)) as [->|Hne].
  - rewrite (close_conn_closed sock w st Hst Hc). exists st. tauto.
  - destruct (close_conn_keeps s sock w Hne) as [_ [H _]].
    exists st. rewrite H. tauto.
Qed.

(** What a teardown adds to the log: no write, and no close but of a
    connection it marks closed. *)
Lemma close_conn_tail (sock : nat) (w : World) :
  exists tail,
    log (close_conn env sock w) = log w ++ tail
    /\ forallb no_send tail = true
    /\ forall s, In s (closes tail) -> closed_in (close_conn env sock w) s.
Proof.
  destruct (heap w !! sock) as [st|] eqn:Hst.
  - destruct (closed st) eqn:Hc.
    + rewrite (close_conn_closed sock w st Hst Hc). exists [].
      split; [symmetry; apply app_nil_r|]. split; [reflexivity|intros s []].
    + rewrite (close_conn_open sock w st Hst Hc).
      exists ([EvUnregister sock; EvClose sock] ++ safe_stop_events env).
      split; [reflexivity|]. split.
      * cbn [app forallb]. apply (safe_stop_events_p no_send); reflexivity.
      * intros s. rewrite closes_app.
        rewrite (closes_none (safe_stop_events env))
          by (apply (safe_stop_events_p (fun e => negb (is_close e)));
              reflexivity).
        intros [<-|[]]. exists (set_closed true st). fields.
        split; [apply lookup_insert_eq|reflexivity].
  - unfold close_conn. rewrite Hst. exists [].
    split; [symmetry; apply app_nil_r|]. split; [reflexivity|intros s []].
Qed.

Lemma teardown_log_inv (sock : nat) (w : World) (pre : list Event) :
  log_inv w ->
  forallb (own_event sock) pre = true ->
  (forallb no_send pre = true \/ conn_open w sock) ->
  forall w0, log w0 = log w ++ pre -> heap w0 = heap w ->
             log_inv (close_conn env sock w0).
Proof.
  intros I Hpre Hopen w0 L0 H0.
  destruct (close_conn_tail sock w0) as [tail [L [N C]]].
  apply (log_inv_step sock w _ pre tail I); try assumption.
  - rewrite L, L0, <- app_assoc. reflexivity.
  - intros s [st [Hst Hc]]. apply closed_in_close_conn.
    exists st. rewrite H0. tauto.
Qed.

Lemma accept_log_inv (a : Addr) (w : World) :
  wf_world w -> log_inv w -> log_inv (accept a w).
Proof.
  intros Hwf I.
  apply (log_inv_step 0%nat w _ [EvPrint (DClient a)] [] I);
    try reflexivity.
  - left. reflexivity.
  - intros s [].
  - intros s [st [Hst Hc]].
    destruct (accept_keeps s a w (wf_fresh w Hwf s st Hst)) as [_ [H _]].
    exists st. rewrite H. tauto.
Qed.

Lemma service_log_inv (sock : nat) (r : RecvResult) (w : World) :
  log_inv w -> log_inv (service env sock r w).
Proof.
  intros I.
  assert (Hfail : forall a,
            log_inv (close_conn env sock (emit (EvPrint (DDisconnected a)) w))).
  { intros a.
    apply (teardown_log_inv sock w [EvPrint (DDisconnected a)] I);
      try reflexivity.
    left. reflexivity. }
  destruct (heap w !! sock) as [st|] eqn:Hst;
    [|unfold service; rewrite Hst; exact I].
  destruct (closed st) eqn:Hc.
  { unfold service. rewrite Hst, Hc. apply Hfail. }
  destruct r as [[|b chunk]| |].
  - unfold service. rewrite Hst, Hc. apply Hfail.
  - rewrite (service_eq sock (b :: chunk) w st Hst Hc) by discriminate.
    rewrite served_eq.
    eapply (log_inv_step sock w _ _ [] I).
    + fields. rewrite <- app_assoc, app_nil_r. reflexivity.
    + cbn [app forallb]. apply (served_events_p (own_event sock));
        try reflexivity.
      intros x ok. unfold own_event. cbn [sends_only_to is_close negb].
      rewrite Nat.eqb_refl. reflexivity.
    + right. exists st. tauto.
    + reflexivity.
    + intros s [].
    + intros s [st' [Hst' Hc']]. exists st'. fields.
      split; [|exact Hc']. rewrite lookup_alter_ne; [exact Hst'|congruence].
  - unfold service. rewrite Hst, Hc. exact I.
  - unfold service. rewrite Hst, Hc. apply Hfail.
Qed.

Lemma push_log_inv (sock : nat) (hz : float) (w w' : World) :
  conn_open w sock ->
  log_inv w ->
  push_telem_if_due env sock hz w = Some w' ->
  log_inv w'.
Proof.
  intros [st [Hst Ho]] I. unfold push_telem_if_due. rewrite Hst.
  destruct (py_fdiv 1%float hz) as [period|]; [|discriminate].
  cbv zeta.
  destruct (PrimFloat.leb period (clock env (n_clock w) - last_push st)%float);
    [|intros H; injection H as <-; apply (log_inv_ext w); [reflexivity..|exact I]].
  rewrite telemetry_tick_eq. fields. rewrite Ho. cbn [negb andb].
  destruct (send_ok env (n_send w)); intros H; injection H as <-.
  - eapply (log_inv_step sock w _ [_] [] I).
    + fields. reflexivity.
    + cbn [forallb]. unfold own_event.
      cbn [sends_only_to is_close negb]. rewrite Nat.eqb_refl. reflexivity.
    + right. exists st. tauto.
    + reflexivity.
    + intros s [].
    + intros s [st' [Hst' Hc']]. exists st'. fields.
      split; [|exact Hc']. rewrite lookup_alter_ne; [exact Hst'|congruence].
  - apply (teardown_log_inv sock w
             [EvSend sock
                (PJsonLine (ticked env (with_n_clock (S (n_clock w)) w))) false;
              EvPrint (DSendErr (addr st))] I).
    + cbn [forallb]. unfold own_event.
      cbn [sends_only_to is_close negb]. rewrite Nat.eqb_refl. reflexivity.
    + right. exists st. tauto.
    + fields. rewrite <- app_assoc. reflexivity.
    + reflexivity.
Qed.

Lemma service_phase_log_inv (ready : list ReadyEv) :
  forall w w',
    wf_world w -> log_inv w ->
    service_phase env ready w = Some w' -> log_inv w'.
Proof.
  induction ready as [|ev ready IH]; intros w w' Hwf I H;
    cbn [service_phase] in H.
  - injection H as <-. exact I.
  - destruct ev as [[a|]|sock r]; [| discriminate |].
    + apply (IH _ _ (accept_wf a w Hwf) (accept_log_inv a w Hwf I) H).
    + apply (IH _ _ (service_wf sock r w Hwf) (service_log_inv sock r w I) H).
Qed.

Lemma push_phase_log_inv (socks : list nat) (hz : float) :
  forall w w',
    NoDup socks ->
    (forall s, In s socks -> conn_open w s) ->
    log_inv w ->
    push_phase env socks hz w = Some w' -> log_inv w'.
Proof.
  induction socks as [|sock socks IH]; intros w w' ND Hopen I H;
    cbn [push_phase] in H.
  - injection H as <-. exact I.
  - destruct (push_telem_if_due env sock hz w) as [w1|] eqn:E; [|discriminate].
    apply NoDup_cons in ND as [Hnot ND].
    apply (IH w1 w' ND); [| |exact H].
    + intros s Hin. destruct (Hopen s (or_intror Hin)) as [st [Hst Ho]].
      destruct (push_touches sock hz w w1 E) as [Hh _].
      exists st. rewrite Hh; [tauto|].
      intros ->. apply Hnot, list_elem_of_In, Hin.
    + apply (push_log_inv sock hz w w1); [|exact I|exact E].
      apply Hopen. left. reflexivity.
Qed.

Lemma heartbeat_log_inv (ready : list ReadyEv) (w w' : World) :
  wf_world w -> log_inv w -> heartbeat env ready w = Some w' -> log_inv w'.
Proof.
  intros Hwf I. unfold heartbeat.
  destruct (service_phase env ready w) as [w1|] eqn:E; [|discriminate].
  pose proof (service_phase_wf ready w w1 Hwf E) as Hwf1.
  apply push_phase_log_inv.
  - apply conn_socks_nodup, (wf_nodup w1 Hwf1).
  - intros s Hin. apply (wf_registered_open w1 Hwf1), conn_socks_In, Hin.
  - apply (service_phase_log_inv ready w w1 Hwf I E).
Qed.

Lemma run_log_inv (inputs : list (list ReadyEv)) :
  forall w w',
    wf_world w -> log_inv w -> run env inputs w = Some w' -> log_inv w'.
Proof.
  induction inputs as [|ready inputs IH]; intros w w' Hwf I H; cbn [run] in H.
  - injection H as <-. exact I.
  - destruct (heartbeat env ready w) as [w1|] eqn:E; [|discriminate].
    apply (IH w1 w' (heartbeat_wf ready w w1 Hwf E)
             (heartbeat_log_inv ready w w1 Hwf I E) H).
Qed.

(** X14: once a connection is closed, nothing is written to it again:
    in the log of every world the loop reaches, no write to a socket, be
    it an ACK or a telemetry line, returned or raised, comes after the
    close of that socket. *)
Theorem no_write_after_close
        (inputs : list (list ReadyEv)) (w : World)
        (l1 l2 : list Event) (s : nat) (x : Payload) (ok : bool) :
  run env inputs (initial_world env) = Some w ->
  log w = l1 ++ EvClose s :: l2 ->
  ~ In (EvSend s x ok) l2.
Proof.
  intros H L.
  assert (I0 : log_inv (initial_world env)).
  { split; [reflexivity|intros s' []]. }
  destruct (run_log_inv inputs _ w initial_world_wf I0 H) as [I _].
  rewrite L, silent_app in I. apply andb_true_iff in I as [_ I].
  cbn [silent_after_close] in I.
  apply (silent_In l2 s x ok _ I). left. reflexivity.
Qed.


End Properties.

(** * Worked instances *)

(** C1 fails on the code. A client sends ["forward\n"] and then nothing:
    after twenty turns of the loop with nothing to read, while the clock
    has gone on by more than a second, the direction is still
    ["forward"] and the only actuator calls ever made are those of the
    forward command. If the client goes away instead, no connection is
    left, and after twenty more turns the direction is still
    ["forward"]. *)
Lemma idle_turns_counterexample :
  (let w := world_forward env_ok in
   exists w',
     run env_ok (repeat [] 20%nat) w = Some w'
     /\ PrimFloat.ltb 1%float
          (clock env_ok (n_clock w') - clock env_ok (n_clock w))%float = true
     /\ direction (telem w') = lit "forward"
     /\ List.filter is_actuator_call (log w')
        = [EvSetMotion (lit "forward"); EvPx (PxForward 80)])
  /\ (let w := world_forward_gone env_ok in
      exists w',
        conn_socks (sel_map w) = []
        /\ run env_ok (repeat [] 20%nat) w = Some w'
        /\ direction (telem w') = lit "forward").
Proof.
  split.
  - eexists. split; [vm_compute; reflexivity|]. vm_compute. repeat split.
  - eexists. split; [reflexivity|]. split; [vm_compute; reflexivity|].
    vm_compute. reflexivity.
Qed.

(** C2 fails on the code when a read ends inside a multi-byte sequence:
    the bytes C3 A9 0A in one read dispatch one command, the text U+00E9;
    read as C3 and then A9 0A they dispatch none, each read dropping the
    half of the sequence it holds. *)
Lemma framing_counterexample :
  let w := world_one_client env_ok in
  dispatched (log (feed env_ok 0%nat chunks_e_acute_cut w)) = []
  /\ dispatched (log (service env_ok 0%nat
                        (RecvBytes (concat chunks_e_acute_cut)) w))
     = [[233]]
  /\ telem (feed env_ok 0%nat chunks_e_acute_cut w) = telem w.
Proof. vm_compute. repeat split. Qed.

(** C2 at ["forward\r"] followed by ["\nleft\r\n"], a CR LF cut by the
    end of a read: the two commands are dispatched as in one read. *)
Lemma framing_read_boundary_independent_witness :
  utf8_decode_ignore (concat chunks_crlf_cut)
  = concat (map utf8_decode_ignore chunks_crlf_cut)
  /\ without_rx (feed env_ok 0%nat chunks_crlf_cut (world_one_client env_ok))
     = without_rx (service env_ok 0%nat (RecvBytes (concat chunks_crlf_cut))
                     (world_one_client env_ok))
  /\ dispatched (log (feed env_ok 0%nat chunks_crlf_cut (world_one_client env_ok)))
     = [lit "forward"; lit "left"].
Proof.
  split; [reflexivity|]. split; [|vm_compute; reflexivity].
  apply (framing_read_boundary_independent env_ok 0%nat chunks_crlf_cut
           (world_one_client env_ok) fresh_conn).
  - reflexivity.
  - reflexivity.
  - discriminate.
  - repeat constructor; discriminate.
  - reflexivity.
Defined.

(** C3 fails on the code for the token ["reset-odometer"]: with 5 on the
    odometer it leaves 5, which is not 0, and is reported as unknown. *)
Lemma reset_odometer_counterexample :
  let w := world_with_distance env_ok 5%float in
  distance_m (telem (apply_cmd env_ok (lit "reset-odometer") w)) = 5%float
  /\ PrimFloat.eqb 5%float 0%float = false
  /\ log (apply_cmd env_ok (lit "reset-odometer") w)
     = [EvPrint (DCmd (lit "reset-odometer"));
        EvPrint (DWarnUnknown (lit "reset-odometer"))].
Proof. vm_compute. repeat split. Qed.

(** C4 on a connection whose client sent ["forward\n"]: the teardown
    stops the actuator while the telemetry record still says
    ["forward"], and a second teardown changes nothing. *)
Lemma teardown_safe_stop_idempotent_witness :
  let w := world_forward env_ok in
  let w1 := close_conn env_ok 0%nat w in
  direction (telem w) = lit "forward"
  /\ log w1 = log w ++ [EvUnregister 0%nat; EvClose 0%nat;
                        EvSetMotion (lit "stop"); EvPx PxStop;
                        EvSetSteer (lit "center"); EvPx (PxServo 0)]
  /\ close_conn env_ok 0%nat w1 = w1.
Proof.
  split; [reflexivity|].
  destruct (teardown_safe_stop_idempotent env_ok 0%nat (world_forward env_ok)
              (set_buf_in [] fresh_conn) eq_refl eq_refl)
    as [L [_ [_ [I _]]]].
  split; [exact L|exact I].
Defined.

(** C5 fails on the code for the token ["resetodo"], which is outside
    the recognized set of the specification: with 5 on the odometer it
    leaves 0, and the only print is that of the command, with no
    warning. *)
Lemma unrecognized_command_counterexample :
  let w := world_with_distance env_ok 5%float in
  let w' := apply_cmd env_ok (lit "resetodo") w in
  spec_recognized (normalize env_ok (lit "resetodo")) = false
  /\ distance_m (telem w) = 5%float
  /\ distance_m (telem w') = 0%float
  /\ PrimFloat.eqb 5%float 0%float = false
  /\ log w' = [EvPrint (DCmd (lit "resetodo"))].
Proof. vm_compute. repeat split. Qed.

(** C5 at the line ["  Jump "]. *)
Lemma unrecognized_command_frame_witness :
  let w := world_forward env_ok in
  let cmd := lit "  Jump " in
  normalize env_ok cmd = lit "jump"
  /\ apply_cmd env_ok cmd w
     = with_log (log w ++ [EvPrint (DCmd (lit "jump"));
                           EvPrint (DWarnUnknown (lit "jump"))]) w
  /\ telem (apply_cmd env_ok cmd w) = telem w.
Proof.
  split; [reflexivity|].
  apply (unrecognized_command_frame env_ok (lit "  Jump ") (world_forward env_ok)).
  reflexivity.
Defined.

(** C6 at one read of ["forward\nleft\n"] when every write raises: each
    command has its ACK attempted, the failure printed, and is then
    dispatched all the same. *)
Lemma ack_precedes_dispatch_witness :
  let w := world_one_client env_send_fails in
  let w' := service env_send_fails 0%nat
              (RecvBytes (list_byte_of_string "forward" ++ [x0a]
                          ++ list_byte_of_string "left" ++ [x0a])) w in
  log w' = log w
           ++ EvPrint (DRx peer (lit "forward" ++ [NL] ++ lit "left" ++ [NL]))
           :: served_events env_send_fails 0%nat peer 0%nat
                [lit "forward"; lit "left"]
  /\ served_events env_send_fails 0%nat peer 0%nat [lit "forward"; lit "left"]
     = [EvSend 0%nat (PText (lit "ACK:forward" ++ [NL])) false;
        EvPrint (DAckErr peer);
        EvPrint (DCmd (lit "forward"));
        EvSetMotion (lit "forward"); EvPx (PxForward 80);
        EvSend 0%nat (PText (lit "ACK:left" ++ [NL])) false;
        EvPrint (DAckErr peer);
        EvPrint (DCmd (lit "left"));
        EvSetSteer (lit "left"); EvPx (PxServo (-22))]
  /\ direction (telem w') = lit "forward".
Proof.
  destruct (ack_precedes_dispatch env_send_fails 0%nat
              (list_byte_of_string "forward" ++ [x0a]
               ++ list_byte_of_string "left" ++ [x0a])
              (world_one_client env_send_fails) fresh_conn
              eq_refl eq_refl) as [L [T _]]; [discriminate|].
  split; [exact L|]. split; [reflexivity|]. rewrite T. reflexivity.
Defined.

(** C7 fails on the code for ACKs: the write of the ACK of ["stop\n"]
    raises, the failure is printed, the command is dispatched, and the
    connection is as open and as registered as before. *)
Lemma write_failures_counterexample :
  let w := world_one_client env_send_fails in
  let w' := service env_send_fails 0%nat
              (RecvBytes (list_byte_of_string "stop" ++ [x0a])) w in
  log w' = [EvPrint (DClient peer);
            EvPrint (DRx peer (lit "stop" ++ [NL]));
            EvSend 0%nat (PText (lit "ACK:stop" ++ [NL])) false;
            EvPrint (DAckErr peer);
            EvPrint (DCmd (lit "stop"));
            EvSetMotion (lit "stop"); EvPx PxStop]
  /\ heap w' !! 0%nat = Some fresh_conn
  /\ sel_map w' = [KListen; KConn 0%nat].
Proof. vm_compute. repeat split. Qed.

(** C7 on a fresh connection when every write raises: the first push
    tears the connection down, a read with its ACK does not. *)
Lemma write_failures_witness :
  let w := world_one_client env_send_fails in
  (exists w' t,
      push_telem_if_due env_send_fails 0%nat 3%float w = Some w'
      /\ log w' = log w ++ [EvSend 0%nat (PJsonLine t) false;
                            EvPrint (DSendErr peer);
                            EvUnregister 0%nat; EvClose 0%nat]
                        ++ safe_stop_events env_send_fails
      /\ heap w' !! 0%nat = Some (set_closed true fresh_conn)
      /\ ~ In (KConn 0%nat) (sel_map w'))
  /\ conn_open (service env_send_fails 0%nat
                  (RecvBytes (list_byte_of_string "stop" ++ [x0a])) w) 0%nat.
Proof.
  destruct (write_failures env_send_fails 0%nat
              (world_one_client env_send_fails) fresh_conn eq_refl eq_refl)
    as [P S].
  split.
  - apply (P 3%float (1 / 3)%float); reflexivity.
  - apply S. discriminate.
Defined.

(** C8 at the line of two spaces, ["FoRwArD"], a space and a CR. *)
Lemma motion_tokens_witness :
  let w := initial_world env_ok in
  let w' := apply_cmd env_ok (lit "  " ++ lit "FoRwArD" ++ [32; CR]) w in
  log w' = [EvPrint (DCmd (lit "forward")); EvSetMotion (lit "forward");
            EvPx (PxForward 80)]
  /\ direction (telem w') = lit "forward"
  /\ speed_mps (telem w') = 0.55%float
  /\ PrimFloat.ltb 0%float (speed_mps (telem w')) = true.
Proof.
  apply (motion_tokens env_ok (lit "  ") (lit "FoRwArD") [32; CR]
           (initial_world env_ok) eq_refl eq_refl).
  reflexivity.
Defined.

(** C9 with a clock that advances, at the speed 0.55. First, on a
    connection that has just been pushed to: a turn of the loop that
    reads ["forward\n"] makes its check a tenth of a second after the
    push, finds nothing due and leaves the odometer alone. Then, with no
    client left, the car still reported as going forward: an idle turn
    leaves the odometer alone. *)
Lemma odometer_moves_only_on_push_witness :
  (let w := world_pushed_once env_ok in
   let ready :=
     [RdConn 0%nat (RecvBytes (list_byte_of_string "forward" ++ [x0a]))] in
   exists w',
     heartbeat env_ok ready w = Some w'
     /\ odometer_kept w w'
     /\ speed_mps (telem w') = 0.55%float)
  /\ (let w := world_forward_gone env_ok in
      conn_socks (sel_map w) = []
      /\ speed_mps (telem w) = 0.55%float
      /\ exists w', heartbeat env_ok [] w = Some w' /\ odometer_kept w w').
Proof.
  split.
  - destruct (odometer_moves_only_on_push env_ok
                [RdConn 0%nat (RecvBytes (list_byte_of_string "forward" ++ [x0a]))]
                (world_pushed_once env_ok)
                (service env_ok 0%nat
                   (RecvBytes (list_byte_of_string "forward" ++ [x0a]))
                   (world_pushed_once env_ok)) eq_refl)
      as [w' [H [K T]]].
    + vm_compute. reflexivity.
    + exists w'. split; [exact H|]. split; [exact K|]. rewrite T.
      vm_compute. reflexivity.
  - split; [vm_compute; reflexivity|]. split; [vm_compute; reflexivity|].
    destruct (odometer_moves_only_on_push env_ok []
                (world_forward_gone env_ok) (world_forward_gone env_ok) eq_refl)
      as [w' [H [K _]]].
    + vm_compute. reflexivity.
    + exists w'. split; [exact H|exact K].
Defined.




(** X1 at the line of a tab, ["LeFt"] and a CR, the car going forward. *)
Lemma steering_tokens_witness :
  let w := world_forward env_ok in
  let w' := apply_cmd env_ok ([9] ++ lit "LeFt" ++ [CR]) w in
  log w' = log w ++ [EvPrint (DCmd (lit "left")); EvSetSteer (lit "left");
                     EvPx (PxServo (-22))]
  /\ telem w' = set_wrv_steer (lit "left") (telem w)
  /\ direction (telem w') = lit "forward".
Proof.
  destruct (steering_tokens env_ok [9] (lit "LeFt") [CR] (world_forward env_ok)
              eq_refl eq_refl) as [L _].
  destruct (L eq_refl) as [A B].
  split; [exact A|]. split; [exact B|]. rewrite B. reflexivity.
Defined.

(** X3 at ["Back"] and [" right "]. *)
Lemma motion_steer_commute_witness :
  let w := initial_world env_ok in
  let w1 := apply_cmd env_ok (lit "Back") (apply_cmd env_ok (lit " right ") w) in
  let w2 := apply_cmd env_ok (lit " right ") (apply_cmd env_ok (lit "Back") w) in
  telem w1 = telem w2
  /\ direction (telem w1) = lit "back"
  /\ wrv_steer (telem w1) = lit "right".
Proof.
  apply (motion_steer_commute env_ok (lit "Back") (lit " right ")
           (initial_world env_ok) eq_refl eq_refl).
Defined.

(** X4 when the client that sent ["forward\n"] goes away: the car is
    stopped, the telemetry record still says ["forward"]. *)
Lemma read_failure_tears_down_witness :
  let w := world_forward env_ok in
  let w' := service env_ok 0%nat (RecvBytes []) w in
  log w' = log w ++ [EvPrint (DDisconnected peer);
                     EvUnregister 0%nat; EvClose 0%nat;
                     EvSetMotion (lit "stop"); EvPx PxStop;
                     EvSetSteer (lit "center"); EvPx (PxServo 0)]
  /\ direction (telem w') = lit "forward"
  /\ speed_mps (telem w') = 0.55%float
  /\ sel_map w' = [KListen].
Proof.
  destruct (read_failure_tears_down env_ok 0%nat (RecvBytes [])
              (world_forward env_ok) (set_buf_in [] fresh_conn)
              eq_refl eq_refl (or_introl eq_refl)) as [L [T _]].
  split; [exact L|]. rewrite T. repeat split.
Defined.

(** X5 at a read of CR, LF, space, LF. *)
Lemma blank_lines_skipped_witness :
  let w := world_one_client env_ok in
  let w' := service env_ok 0%nat (RecvBytes [x0d; x0a; x20; x0a]) w in
  log w' = log w ++ [EvPrint (DRx peer [CR; NL; 32; NL])]
  /\ telem w' = telem w
  /\ n_send w' = n_send w
  /\ sel_map w' = sel_map w.
Proof.
  apply (blank_lines_skipped env_ok 0%nat [x0d; x0a; x20; x0a]
           (world_one_client env_ok) fresh_conn eq_refl eq_refl);
    [discriminate|reflexivity].
Defined.

(** X6 at a read of ["forw"]. *)
Lemma partial_line_waits_witness :
  let w := world_one_client env_ok in
  let w' := service env_ok 0%nat (RecvBytes (list_byte_of_string "forw")) w in
  heap w' !! 0%nat = Some (set_buf_in (lit "forw") fresh_conn)
  /\ log w' = log w ++ [EvPrint (DRx peer (lit "forw"))]
  /\ telem w' = telem w
  /\ n_send w' = n_send w.
Proof.
  apply (partial_line_waits env_ok 0%nat (list_byte_of_string "forw")
           (world_one_client env_ok) fresh_conn eq_refl eq_refl);
    [discriminate|reflexivity|reflexivity].
Defined.

(** X7 after the sample session: the second client is registered and
    open, the first is neither. *)
Lemma registered_iff_open_witness :
  let w := world_after env_ok session in
  sel_map w = [KListen; KConn 1%nat]
  /\ (forall s, In (KConn s) (sel_map w) <-> conn_open w s)
  /\ NoDup (conn_socks (sel_map w)).
Proof.
  assert (R : run env_ok session (initial_world env_ok)
              = Some (world_after env_ok session))
    by (vm_compute; reflexivity).
  split; [vm_compute; reflexivity|].
  apply (registered_iff_open env_ok session (world_after env_ok session) R).
Defined.
(** X8 after the sample session: the first client left ["sto"] behind. *)
Lemma buffers_hold_no_line_witness :
  let w := world_after env_ok session in
  exists st,
    heap w !! 0%nat = Some st
    /\ buf_in st = lit "sto"
    /\ find_nl (buf_in st) = None
    /\ cmds_of (buf_in st) = [].
Proof.
  assert (R : run env_ok session (initial_world env_ok)
              = Some (world_after env_ok session))
    by (vm_compute; reflexivity).
  eexists. split; [vm_compute; reflexivity|]. split; [reflexivity|].
  apply (buffers_hold_no_line env_ok session (world_after env_ok session)
           R 0%nat).
  vm_compute. reflexivity.
Defined.
(** X9 after the sample session. *)
Lemma telemetry_keeps_its_shape_witness :
  let t := telem (world_after env_ok session) in
  direction t = lit "forward"
  /\ (((direction t = lit "forward" /\ speed_mps t = 0.55%float)
       \/ (direction t = lit "back" /\ speed_mps t = 0.55%float)
       \/ (direction t = lit "stop" /\ speed_mps t = 0%float))
      /\ wrv_moving t = direction t
      /\ (wrv_steer t = lit "left" \/ wrv_steer t = lit "right"
          \/ wrv_steer t = lit "center")
      /\ wrv_battery t = 80%Z).
Proof.
  assert (R : run env_ok session (initial_world env_ok)
              = Some (world_after env_ok session))
    by (vm_compute; reflexivity).
  split; [vm_compute; reflexivity|].
  apply (telemetry_keeps_its_shape env_ok session
           (world_after env_ok session) R).
Defined.
(** X10 after the sample session, at the call that turned the servo
    left. *)
Lemma driver_calls_bounded_witness :
  let w := world_after env_ok session in
  let c := PxServo (-22) in
  In (EvPx c) (log w)
  /\ px_present env_ok = true
  /\ (c = PxForward 80 \/ c = PxBackward 80 \/ c = PxStop
      \/ c = PxServo (-22) \/ c = PxServo 0 \/ c = PxServo 22).
Proof.
  assert (R : run env_ok session (initial_world env_ok)
              = Some (world_after env_ok session))
    by (vm_compute; reflexivity).
  assert (H : In (EvPx (PxServo (-22))) (log (world_after env_ok session))).
  { vm_compute. repeat (first [left; reflexivity | right]). }
  split; [exact H|].
  apply (driver_calls_bounded env_ok session (world_after env_ok session)
           (PxServo (-22)) R H).
Defined.
(** X11 at the first push to a fresh connection. *)
Lemma handlers_touch_one_connection_witness :
  let w := world_one_client env_ok in
  push_telem_if_due env_ok 0%nat 3%float w = Some (world_pushed_once env_ok)
  /\ touches_only 0%nat w (world_pushed_once env_ok).
Proof.
  assert (R : push_telem_if_due env_ok 0%nat 3%float (world_one_client env_ok)
              = Some (world_pushed_once env_ok))
    by (vm_compute; reflexivity).
  split; [exact R|].
  destruct (handlers_touch_one_connection env_ok 0%nat RecvWouldBlock 3%float
              (world_one_client env_ok)) as [_ [_ P]].
  apply P, R.
Defined.
(** X12 after the sample session: the second client is closed, the car
    stopped, the record still says ["forward"]. *)
Lemma shutdown_closes_everything_witness :
  let w := world_after env_ok session in
  let w' := shutdown env_ok w in
  sel_map w = [KListen; KConn 1%nat]
  /\ direction (telem w') = lit "forward"
  /\ sel_map w' = []
  /\ (forall s st, heap w' !! s = Some st -> closed st = true)
  /\ (exists evs, log w' = log w ++ evs ++ safe_stop_events env_ok)
  /\ telem w' = telem w.
Proof.
  assert (R : run env_ok session (initial_world env_ok)
              = Some (world_after env_ok session))
    by (vm_compute; reflexivity).
  split; [vm_compute; reflexivity|]. split; [vm_compute; reflexivity|].
  apply (shutdown_closes_everything env_ok session
           (world_after env_ok session) R).
Defined.
(** X13 at the turn after the sample session in which the second client
    sends ["stop\n"]. *)
Lemma one_telemetry_line_per_turn_witness :
  let w := world_after env_ok session in
  let ready := [RdConn 1%nat (RecvBytes (list_byte_of_string "stop" ++ [x0a]))] in
  exists w' evs,
    heartbeat env_ok ready w = Some w'
    /\ log w' = log w ++ evs
    /\ forall s, (telemetry_sends s evs <= 1)%nat.
Proof.
  assert (R : run env_ok session (initial_world env_ok)
              = Some (world_after env_ok session))
    by (vm_compute; reflexivity).
  destruct (heartbeat env_ok
              [RdConn 1%nat (RecvBytes (list_byte_of_string "stop" ++ [x0a]))]
              (world_after env_ok session)) as [w'|] eqn:E;
    [|vm_compute in E; discriminate].
  destruct (one_telemetry_line_per_turn env_ok session _
              (world_after env_ok session) w' R E) as [evs [L C]].
  exists w', evs. split; [exact E|]. split; [exact L|exact C].
Defined.

(** X14 after the sample session and one more turn: what follows the
    close of the first client holds the ACK written to the second, and no
    write to the first. *)
Lemma no_write_after_close_witness :
  let w := world_after env_ok session_late in
  let l1 := firstn 16 (log w) in
  let l2 := skipn 17 (log w) in
  log w = l1 ++ EvClose 0%nat :: l2
  /\ In (EvSend 1%nat (PText (lit "ACK:stop" ++ [NL])) true) l2
  /\ ~ In (EvSend 0%nat (PText (lit "ACK:stop" ++ [NL])) true) l2.
Proof.
  assert (R : run env_ok session_late (initial_world env_ok)
              = Some (world_after env_ok session_late))
    by (vm_compute; reflexivity).
  assert (L : log (world_after env_ok session_late)
              = firstn 16 (log (world_after env_ok session_late))
                ++ EvClose 0%nat
                   :: skipn 17 (log (world_after env_ok session_late)))
    by (vm_compute; reflexivity).
  split; [exact L|].
  split; [vm_compute; repeat (first [left; reflexivity | right])|].
  apply (no_write_after_close env_ok session_late
           (world_after env_ok session_late) _ _ 0%nat _ _ R L).
Defined.
